(** * Azure preview modules: the desired-state comparator and the
      reconciliation driver

    A shallow embedding of [default_compare] (repeated verbatim in
    azure_rm_mariadbfirewallrule.py, azure_rm_devtestlabsenvironment.py,
    azure_rm_devtestlabsuser.py and azure_rm_devtestlabsglobalschedule.py) and
    of the [exec_module] drivers of these four modules.  The fifth file under
    src/library, azure_rm_rediscache.py, is not valid Python as it stands;
    of it only the text of the lookup method is embedded.

    Python values are an inductive type, exceptions are explicit results,
    and the calls on the management client are state passing over an
    abstract remote state with a trace of the calls that were made. *)

From Stdlib Require Import List ZArith String Ascii Bool Lia Permutation Sorted.
Import ListNotations.

Set Warnings "-register-all".

Local Open Scope string_scope.
Local Open Scope list_scope.

(** ** Python values and exceptions *)

Module Py.

(** The values that module arguments and deserialised SDK models are made
    of.  A dict is kept as the list of its items in insertion order; its
    keys are strings.  Floats are left out: no argument of the modules is
    declared as one, and what is proved below is about values that hold
    none.  (A float can still arrive inside a dict argument or a model, and
    with it NaN, the one value that [==] does not find equal to itself.) *)
Inductive value : Type :=
| VNone
| VBool (b : bool)
| VInt (z : Z)
| VStr (s : string)
| VList (l : list value)
| VDict (d : list (string * value)).

Definition dict : Type := list (string * value).

Inductive exn : Type :=
| IndexError
| TypeError
| AttributeError (attr : string)
| NameError (name : string)
| KeyError (key : string)
| RecursionError
| CloudError (status_code : Z) (message : string)
| OtherError (message : string).

Inductive result (A : Type) : Type :=
| Ok (a : A)
| Raise (e : exn).

Arguments Ok {A} a.
Arguments Raise {A} e.

Definition bind {A B : Type} (r : result A) (k : A -> result B) : result B :=
  match r with
  | Ok a => k a
  | Raise e => Raise e
  end.

Notation "x <- c ;; k" := (bind c (fun x => k))
  (at level 61, c at next level, right associativity).

Fixpoint mapM {A B : Type} (f : A -> result B) (l : list A) : result (list B) :=
  match l with
  | [] => Ok []
  | x :: l' => y <- f x ;; ys <- mapM f l' ;; Ok (y :: ys)
  end.

(** [bool(v)]: the truth value Python gives to [v] in [if not v] and
    [while v]. *)
Definition truthy (v : value) : bool :=
  match v with
  | VNone => false
  | VBool b => b
  | VInt z => negb (Z.eqb z 0)
  | VStr s => negb (String.eqb s "")
  | VList l => match l with [] => false | _ :: _ => true end
  | VDict d => match d with [] => false | _ :: _ => true end
  end.

Definition is_dict (v : value) : bool :=
  match v with VDict _ => true | _ => false end.

Definition is_list (v : value) : bool :=
  match v with VList _ => true | _ => false end.

(** ** Dict operations *)

Fixpoint lookup (k : string) (d : dict) : option value :=
  match d with
  | [] => None
  | (k', v) :: d' => if String.eqb k k' then Some v else lookup k d'
  end.

(** [d.get(k, None)], and [d.get(k)] which is the same. *)
Definition dict_get (d : dict) (k : string) : value :=
  match lookup k d with
  | Some v => v
  | None => VNone
  end.

Definition has_key (k : string) (d : dict) : bool :=
  match lookup k d with
  | Some _ => true
  | None => false
  end.

Definition keys (d : dict) : list string := map fst d.

(** [d[k] = v] *)
Fixpoint dict_set (d : dict) (k : string) (v : value) : dict :=
  match d with
  | [] => [(k, v)]
  | (k', v') :: d' =>
      if String.eqb k k' then (k', v) :: d' else (k', v') :: dict_set d' k v
  end.

(** [d.update(e)] *)
Definition dict_update (d e : dict) : dict :=
  fold_left (fun acc kv => dict_set acc (fst kv) (snd kv)) e d.

(** ** Equality and ordering *)

Definition as_number (v : value) : option Z :=
  match v with
  | VBool b => Some (Z.b2z b)
  | VInt z => Some z
  | _ => None
  end.

(** [a == b].  A bool is an int ([True == 1]); dicts are equal when they
    have the same keys with equal values, whatever the order. *)
Fixpoint py_eq (a b : value) {struct a} : bool :=
  match a with
  | VNone => match b with VNone => true | _ => false end
  | VBool x =>
      match as_number b with Some y => Z.eqb (Z.b2z x) y | None => false end
  | VInt x =>
      match as_number b with Some y => Z.eqb x y | None => false end
  | VStr x => match b with VStr y => String.eqb x y | _ => false end
  | VList x =>
      match b with
      | VList y =>
          (fix go (x y : list value) {struct x} : bool :=
             match x, y with
             | [], [] => true
             | a' :: x', b' :: y' => py_eq a' b' && go x' y'
             | _, _ => false
             end) x y
      | _ => false
      end
  | VDict x =>
      match b with
      | VDict y =>
          Nat.eqb (List.length x) (List.length y) &&
          (fix go (x : list (string * value)) {struct x} : bool :=
             match x with
             | [] => true
             | (k, v) :: x' =>
                 match lookup k y with
                 | Some w => py_eq v w && go x'
                 | None => false
                 end
             end) x
      | _ => false
      end
  end.

(** [a < b] as Python 3 evaluates it: numbers with numbers, strings with
    strings (by code point, which is byte order here), lists with lists
    (the first pair of unequal items decides, else the lengths); any other
    pair, [None] and dicts included, raises [TypeError]. *)
Fixpoint py_lt (a b : value) {struct a} : result bool :=
  match a with
  | VBool _ | VInt _ =>
      match as_number a, as_number b with
      | Some x, Some y => Ok (Z.ltb x y)
      | _, _ => Raise TypeError
      end
  | VStr x => match b with VStr y => Ok (String.ltb x y) | _ => Raise TypeError end
  | VList x =>
      match b with
      | VList y =>
          (fix go (x y : list value) {struct x} : result bool :=
             match x, y with
             | [], [] => Ok false
             | [], _ :: _ => Ok true
             | _ :: _, [] => Ok false
             | a' :: x', b' :: y' =>
                 if py_eq a' b' then go x' y' else py_lt a' b'
             end) x y
      | _ => Raise TypeError
      end
  | VNone | VDict _ => Raise TypeError
  end.

(** [needle in container] for a string [needle]: key membership in a dict,
    substring test in a string, item membership in a list, [TypeError] for
    a value that is not iterable. *)
Fixpoint is_substring (needle s : string) : bool :=
  String.prefix needle s ||
  match s with
  | EmptyString => false
  | String _ s' => is_substring needle s'
  end.

Definition py_in (needle : string) (container : value) : result bool :=
  match container with
  | VDict d => Ok (has_key needle d)
  | VStr s => Ok (is_substring needle s)
  | VList l => Ok (existsb (py_eq (VStr needle)) l)
  | VNone | VBool _ | VInt _ => Raise TypeError
  end.

(** ** [sorted]

    [sorted(l, key=f)] first calls [f] on every item, in order, then sorts
    the items by their keys with [<] alone, and is stable.  The sort is
    written as an insertion sort: on keys that [<] orders one stable sort
    returns what any other returns, and when two keys of different kinds
    (or a [None], or a dict) are among two or more keys every sort meets
    such a pair and raises [TypeError].  A list of fewer than two items is
    returned without any comparison. *)
Fixpoint insert_by (kx : value * value) (l : list (value * value))
  : result (list (value * value)) :=
  match l with
  | [] => Ok [kx]
  | ky :: l' =>
      b <- py_lt (fst ky) (fst kx) ;;
      if b then (r <- insert_by kx l' ;; Ok (ky :: r))
      else Ok (kx :: ky :: l')
  end.

Fixpoint sort_keyed (l : list (value * value)) : result (list (value * value)) :=
  match l with
  | [] => Ok []
  | kx :: l' => r <- sort_keyed l' ;; insert_by kx r
  end.

Definition sorted_by (key : value -> result value) (l : list value)
  : result (list value) :=
  ks <- mapM key l ;;
  r <- sort_keyed (combine ks l) ;;
  Ok (map snd r).

(** [sorted(l)] *)
Definition sorted (l : list value) : result (list value) :=
  sorted_by (fun x => Ok x) l.

End Py.

(** ** The comparator *)

Module Comparator.
Import Py.

(** Nesting depth of a value: the recursion of [default_compare] descends
    one level of [new] per call. *)
Fixpoint height (v : value) : nat :=
  match v with
  | VList l =>
      S ((fix go (l : list value) : nat :=
            match l with
            | [] => 0
            | x :: l' => Nat.max (height x) (go l')
            end) l)
  | VDict d =>
      S ((fix go (d : list (string * value)) : nat :=
            match d with
            | [] => 0
            | (_, x) :: d' => Nat.max (height x) (go d')
            end) d)
  | _ => 0
  end.

(** [x.get(key, None)] on an item of the list, as the sort key lambda calls
    it: an item that is not a dict has no [get].  [key] is [None] when
    neither 'id' nor 'name' was found, and no dict has the key [None]. *)
Definition sort_key (key : option string) (x : value) : result value :=
  match x with
  | VDict d =>
      match key with
      | Some k => Ok (dict_get d k)
      | None => Ok VNone
      end
  | _ => Raise (AttributeError "get")
  end.

(** [l[0]] *)
Definition item0 (l : list value) : result value :=
  match l with
  | [] => Raise IndexError
  | x :: _ => Ok x
  end.

(** The choice of the sort key from the first item of either list:
[[
    key = None
    if 'id' in old[0] and 'id' in new[0]:
        key = 'id'
    elif 'name' in old[0] and 'name' in new[0]:
        key = 'name'
]]
    [old0] is [old[0]], a dict here; [and] evaluates its right operand,
    and with it [new[0]], only when the left one is true. *)
Definition both_have (k : string) (old0 : value) (new : list value)
  : result bool :=
  b <- py_in k old0 ;;
  if b then (new0 <- item0 new ;; py_in k new0) else Ok false.

Definition discover_key (old0 : value) (new : list value)
  : result (option string) :=
  b <- both_have "id" old0 new ;;
  if b then Ok (Some "id")
  else
    b' <- both_have "name" old0 new ;;
    if b' then Ok (Some "name") else Ok None.

(** The sorting step of the list branch, after the length check: it looks
    at [old[0]] whatever the length. *)
Definition sort_lists (new old : list value)
  : result (list value * list value) :=
  match old with
  | [] => Raise IndexError
  | old0 :: _ =>
      if is_dict old0 then
        key <- discover_key old0 new ;;
        new' <- sorted_by (sort_key key) new ;;
        old' <- sorted_by (sort_key key) old ;;
        Ok (new', old')
      else
        new' <- sorted new ;;
        old' <- sorted old ;;
        Ok (new', old')
  end.

(** The two loops of [default_compare], over the recursive call [rec]:
[[
    for k in new.keys():
        if not default_compare(new.get(k), old.get(k, None), path + '/' + k):
            return False
    return True
]]
    and
[[
    for i in range(len(new)):
        if not default_compare(new[i], old[i], path + '/*'):
            return False
    return True
]]
    [None] is the recursive call out of fuel. *)
Section Loops.

Variable rec : value -> value -> string -> option (result bool).

Fixpoint for_keys (nd od : dict) (path : string) (ks : list string)
  : option (result bool) :=
  match ks with
  | [] => Some (Ok true)
  | k :: ks' =>
      match rec (dict_get nd k) (dict_get od k) (path ++ "/" ++ k) with
      | Some (Ok true) => for_keys nd od path ks'
      | Some (Ok false) => Some (Ok false)
      | Some (Raise e) => Some (Raise e)
      | None => None
      end
  end.

Fixpoint for_items (path : string) (ns os : list value)
  : option (result bool) :=
  match ns with
  | [] => Some (Ok true)
  | n :: ns' =>
      match os with
      | [] => Some (Raise IndexError)
      | o :: os' =>
          match rec n o (path ++ "/*") with
          | Some (Ok true) => for_items path ns' os'
          | Some (Ok false) => Some (Ok false)
          | Some (Raise e) => Some (Raise e)
          | None => None
          end
      end
  end.

End Loops.

(** [default_compare(new, old, path)].  The recursion is on the nesting of
    [new], through [new.get(k)] and through the items of the sorted list,
    so it is written with a fuel, which [default_compare] below sets to
    more than the height of [new]; [None] means the fuel ran out. *)
Fixpoint default_compare_fuel (fuel : nat) (new old : value) (path : string)
  : option (result bool) :=
  match fuel with
  | O => None
  | S fuel' =>
      match new with
      | VNone => Some (Ok true)
      | VDict nd =>
          match old with
          | VDict od =>
              for_keys (default_compare_fuel fuel') nd od path (keys nd)
          | _ => Some (Ok false)
          end
      | VList nl =>
          match old with
          | VList ol =>
              if negb (Nat.eqb (List.length nl) (List.length ol))
              then Some (Ok false)
              else
                match sort_lists nl ol with
                | Raise e => Some (Raise e)
                | Ok (nl', ol') =>
                    for_items (default_compare_fuel fuel') path nl' ol'
                end
          | _ => Some (Ok false)
          end
      | VBool _ | VInt _ | VStr _ => Some (Ok (py_eq new old))
      end
  end.

Definition default_compare (new old : value) (path : string) : result bool :=
  match default_compare_fuel (S (height new)) new old path with
  | Some r => r
  | None => Raise RecursionError
  end.

End Comparator.

(** ** The reconciliation drivers *)

Module Driver.
Import Py Comparator.

(** [state], validated by the argument spec: choices 'present', 'absent'. *)
Inductive state : Type := Present | Absent.

(** [class Actions: NoAction, Create, Update, Delete = range(4)] *)
Inductive Actions : Type := NoAction | Create | Update | Delete.

Definition Actions_eqb (a b : Actions) : bool :=
  match a, b with
  | NoAction, NoAction | Create, Create | Update, Update | Delete, Delete => true
  | _, _ => false
  end.

(** What the module does to the outside: the calls on the management
    client, each with what the client answered, and [time.sleep]. *)
Inductive event : Type :=
| CallGet (answer : result dict)
| CallCreateOrUpdate (payload : value) (answer : result dict)
| CallCreate (parameters : value) (answer : result dict)
| CallUpdate (parameters : value) (answer : result dict)
| CallDelete (answer : result unit)
| Sleep (seconds : Z).

Definition is_mutating (e : event) : bool :=
  match e with
  | CallGet _ | Sleep _ => false
  | CallCreateOrUpdate _ _ | CallCreate _ _ | CallUpdate _ _ | CallDelete _ => true
  end.

(** How an invocation ends: [exec_module] returns its results,
    [self.fail(msg)] ends the module with a failure message, or an
    exception that nothing catches leaves it. *)
Inductive outcome (A : Type) : Type :=
| Returned (a : A)
| FailJson (msg : string)
| Uncaught (e : exn).

Arguments Returned {A} a.
Arguments FailJson {A} msg.
Arguments Uncaught {A} e.

Section World.

(** The state of the remote system, of which the module knows nothing. *)
Variable R : Type.

Record world : Type := mkWorld { remote : R; calls : list event }.

(** A step of the module; [None] is a loop that ran out of fuel. *)
Definition M (A : Type) : Type := world -> option (outcome A * world).

Definition ret {A : Type} (a : A) : M A := fun w => Some (Returned a, w).

Definition mbind {A B : Type} (m : M A) (k : A -> M B) : M B :=
  fun w =>
    match m w with
    | None => None
    | Some (Returned a, w') => k a w'
    | Some (FailJson msg, w') => Some (FailJson msg, w')
    | Some (Uncaught e, w') => Some (Uncaught e, w')
    end.

Definition fail {A : Type} (msg : string) : M A :=
  fun w => Some (FailJson msg, w).

Definition raise {A : Type} (e : exn) : M A :=
  fun w => Some (Uncaught e, w).

Definition lift {A : Type} (r : result A) : M A :=
  match r with
  | Ok a => ret a
  | Raise e => raise e
  end.

(** A call on the client: the remote state moves on and the call is
    recorded with its answer. *)
Definition call {A : Type} (op : R -> result A * R) (ev : result A -> event)
  : M (result A) :=
  fun w =>
    let '(r, rem) := op (remote w) in
    Some (Returned r, mkWorld rem (calls w ++ [ev r])).

(** [time.sleep(seconds)] *)
Definition sleep (seconds : Z) : M unit :=
  fun w => Some (Returned tt, mkWorld (remote w) (calls w ++ [Sleep seconds])).

End World.

Arguments mkWorld {R} remote calls.
Arguments remote {R} w.
Arguments calls {R} w.
Arguments ret {R A} a.
Arguments mbind {R A B} m k.
Arguments fail {R A} msg.
Arguments raise {R A} e.
Arguments lift {R A} r.
Arguments call {R A} op ev.
Arguments sleep {R} seconds.

Notation "x <~ c ;; k" := (mbind c (fun x => k))
  (at level 61, c at next level, right associativity).

(** *** The four modules that follow the template *)

(** The operation group of the management client for one resource, with
    the names that address the resource already given.  [get] and
    [create_or_update] answer with the model's [as_dict()], the latter
    after the poller, if any, has finished; all of it happens inside the
    [try] of the module's method. *)
Record client (R : Type) : Type := mkClient {
  cl_get : R -> result dict * R;
  cl_create_or_update : value -> R -> result dict * R;
  cl_delete : R -> result unit * R
}.

Arguments cl_get {R} c.
Arguments cl_create_or_update {R} c.
Arguments cl_delete {R} c.

(** What differs between the modules of the template.  [desired] is the
    expression that the module passes to [default_compare] as its first
    argument, evaluated: a value, or the exception that evaluating it
    raises. *)
Record template : Type := mkTemplate {
  label : string;              (* 'Firewall Rule', 'Environment', ... *)
  desired : result value;      (* the first argument of default_compare *)
  payload : value;             (* what create_or_update is called with *)
  item_keys : list string      (* the keys format_item keeps *)
}.

(** [format_item(d)]: [{'id': d.get('id', None)}], with 'status' too for
    the global schedule. *)
Definition format_item (t : template) (d : value) : result dict :=
  match d with
  | VDict d' => Ok (map (fun k => (k, dict_get d' k)) (item_keys t))
  | _ => Raise (AttributeError "get")
  end.

(** The decision, from what the lookup returned:
[[
    if not old_response:
        if self.state == 'absent': ...
        else: self.to_do = Actions.Create
    else:
        if self.state == 'absent': self.to_do = Actions.Delete
        elif self.state == 'present':
            if not default_compare(..., old_response, ''):
                self.to_do = Actions.Update
]]
    [to_do] starts as [NoAction].  The arguments of [default_compare] are
    evaluated before the call, and only in this branch. *)
Definition decide (t : template) (st : state) (old_response : value)
  : result Actions :=
  if negb (truthy old_response) then
    match st with
    | Absent => Ok NoAction
    | Present => Ok Create
    end
  else
    match st with
    | Absent => Ok Delete
    | Present =>
        new <- desired t ;;
        b <- default_compare new old_response "" ;;
        if negb b then Ok Update else Ok NoAction
    end.

Section Template.

Variable R : Type.
Variable c : client R.
Variable t : template.
Variable st : state.
Variable check_mode : bool.

(** [get_firewallrule], [get_environment], [get_user],
    [get_globalschedule]: the model as a dict, or [False] on any
    [CloudError]. *)
Definition get_instance : M R value :=
  r <~ call (cl_get c) CallGet ;;
  match r with
  | Ok d => ret (VDict d)
  | Raise (CloudError _ _) => ret (VBool false)
  | Raise e => raise e
  end.

(** [create_update_firewallrule] and its siblings *)
Definition create_update_instance : M R value :=
  r <~ call (cl_create_or_update c (payload t)) (CallCreateOrUpdate (payload t)) ;;
  match r with
  | Ok d => ret (VDict d)
  | Raise (CloudError _ msg) =>
      fail ("Error creating the " ++ label t ++ " instance: " ++ msg)
  | Raise e => raise e
  end.

(** [delete_firewallrule] and its siblings *)
Definition delete_instance : M R value :=
  r <~ call (cl_delete c) CallDelete ;;
  match r with
  | Ok _ => ret (VBool true)
  | Raise (CloudError _ msg) =>
      fail ("Error deleting the " ++ label t ++ " instance: " ++ msg)
  | Raise e => raise e
  end.

(** [while self.get_firewallrule(): time.sleep(20)] *)
Fixpoint wait_deleted (fuel : nat) : M R unit :=
  match fuel with
  | O => fun _ => None
  | S fuel' =>
      v <~ get_instance ;;
      if truthy v then (_ <~ sleep 20 ;; wait_deleted fuel')
      else ret tt
  end.

(** The end of [exec_module]:
[[
  if self.state == 'present':
      self.results.update(self.format_item(response))
  return self.results
]] *)
Definition finish (results : dict) (response : value) : M R dict :=
  match st with
  | Present =>
      item <~ lift (format_item t response) ;;
      ret (dict_update results item)
  | Absent => ret results
  end.

(** [exec_module], from the lookup on: the management client and the
    resource group, which [AzureRMModuleBase] provides, are there when it
    starts.  [self.results] starts as [dict(changed=False)]. *)
Definition exec_module (fuel : nat) : M R dict :=
  let results := [("changed", VBool false)] in
  old_response <~ get_instance ;;
  to_do <~ lift (decide t st old_response) ;;
  match to_do with
  | Create | Update =>
      if check_mode then ret (dict_set results "changed" (VBool true))
      else
        response <~ create_update_instance ;;
        finish (dict_set results "changed" (VBool true)) response
  | Delete =>
      let results := dict_set results "changed" (VBool true) in
      if check_mode then ret results
      else
        _ <~ delete_instance ;;
        _ <~ wait_deleted fuel ;;
        finish results VNone
  | NoAction =>
      finish (dict_set results "changed" (VBool false)) old_response
  end.

End Template.

Arguments get_instance {R} c.
Arguments create_update_instance {R} c t.
Arguments delete_instance {R} c t.
Arguments wait_deleted {R} c fuel.
Arguments finish {R} t st results response.
Arguments exec_module {R} c t st check_mode fuel.

(** *** The arguments of each module

    The loop at the head of [exec_module] copies [kwargs] into the
    attributes that [__init__] declared and, for the three DevTest Labs
    modules, puts every other argument that is not [None] into the dict
    that [create_or_update] receives:
[[
    for key in list(self.module_arg_spec.keys()) + ['tags']:
        if hasattr(self, key):
            setattr(self, key, kwargs[key])
        elif kwargs[key] is not None:
            if key == "location":
                self.user["location"] = kwargs[key]
            ...
]]
    [kwargs] holds every key of the argument spec. *)
Definition set_field (kwargs : dict) (acc : dict) (key : string) : dict :=
  match dict_get kwargs key with
  | VNone => acc
  | v => dict_set acc key v
  end.

Definition collect (kwargs : dict) (fields : list string) : dict :=
  fold_left (set_field kwargs) fields [].

(** azure_rm_mariadbfirewallrule.py: both addresses are attributes; they
    are what is compared,
    [{'start_ip_address': self.start_ip_address,
      'end_ip_address': self.end_ip_address}],
    and what is sent. *)
Definition AzureRMFirewallRules (kwargs : dict) : template :=
  let fields :=
    VDict [("start_ip_address", dict_get kwargs "start_ip_address");
           ("end_ip_address", dict_get kwargs "end_ip_address")] in
  mkTemplate "Firewall Rule" (Ok fields) fields ["id"].

(** [self.parameters], which the three DevTest Labs modules pass to
    [default_compare] (line 213 of the environment module, 212 of the user
    module, 272 of the global schedule module): no file assigns this
    attribute, in [__init__] or anywhere else, so reading it raises
    [AttributeError]. *)
Definition self_parameters : result value :=
  Raise (AttributeError "parameters").

(** azure_rm_devtestlabsenvironment.py: what is sent is
    [self.dtl_environment], filled by the loop over the arguments. *)
Definition AzureRMEnvironments (kwargs : dict) : template :=
  mkTemplate "Environment" self_parameters
    (VDict (collect kwargs ["location"; "deployment_properties";
                            "arm_template_display_name"; "unique_identifier"]))
    ["id"].

(** azure_rm_devtestlabsuser.py: what is sent is [self.user]. *)
Definition AzureRMUsers (kwargs : dict) : template :=
  mkTemplate "User" self_parameters
    (VDict (collect kwargs ["location"; "identity"; "secret_store";
                            "unique_identifier"]))
    ["id"].

(** [str.split('_')] *)
Fixpoint split_underscore (s : string) : list string :=
  match s with
  | EmptyString => [EmptyString]
  | String ch s' =>
      if Ascii.eqb ch "_" then EmptyString :: split_underscore s'
      else
        match split_underscore s' with
        | [] => [String ch EmptyString]
        | x :: xs => String ch x :: xs
        end
  end.

Definition upper (ch : ascii) : ascii :=
  let n := nat_of_ascii ch in
  if Nat.leb 97 n && Nat.leb n 122 then ascii_of_nat (n - 32) else ch.

Definition lower (ch : ascii) : ascii :=
  let n := nat_of_ascii ch in
  if Nat.leb 65 n && Nat.leb n 90 then ascii_of_nat (n + 32) else ch.

Fixpoint map_string (f : ascii -> ascii) (s : string) : string :=
  match s with
  | EmptyString => EmptyString
  | String ch s' => String (f ch) (map_string f s')
  end.

(** [str.capitalize()], on ASCII letters.  The one string the module
    passes through it is the argument 'status', whose choices are
    'enabled' and 'disabled'; a letter outside ASCII, which
    [str.capitalize] would change as well, is left as it is here. *)
Definition capitalize (s : string) : string :=
  match s with
  | EmptyString => EmptyString
  | String ch s' => String (upper ch) (map_string lower s')
  end.

(** [x.capitalize() or '_'] *)
Definition capitalize_or_underscore (x : string) : string :=
  match capitalize x with
  | EmptyString => "_"
  | y => y
  end.

(** [_snake_to_camel(snake, capitalize_first)] *)
Definition _snake_to_camel (snake : string) (capitalize_first : bool) : string :=
  if capitalize_first then
    String.concat "" (map capitalize_or_underscore (split_underscore snake))
  else
    match split_underscore snake with
    | [] => ""
    | x :: xs => x ++ String.concat "" (map capitalize_or_underscore xs)
    end.

(** The 'status' argument of the global schedule:
    [_snake_to_camel(kwargs[key], True)]. *)
Definition schedule_status (kwargs : dict) (acc : dict) : result dict :=
  match dict_get kwargs "status" with
  | VNone => Ok acc
  | VStr s => Ok (dict_set acc "status" (VStr (_snake_to_camel s true)))
  | _ => Raise (AttributeError "split")
  end.

(** The 'notification_settings' argument of the global schedule:
[[
    ev = kwargs[key]
    if 'status' in ev:
        if ev['status'] == 'disabled':
            ev['status'] = 'Disabled'
        elif ev['status'] == 'enabled':
            ev['status'] = 'Enabled'
    self.schedule["notification_settings"] = ev
]] *)
Definition schedule_notification_settings (kwargs : dict) (acc : dict)
  : result dict :=
  match dict_get kwargs "notification_settings" with
  | VNone => Ok acc
  | VDict ev =>
      let ev' :=
        if has_key "status" ev then
          if py_eq (dict_get ev "status") (VStr "disabled")
          then dict_set ev "status" (VStr "Disabled")
          else if py_eq (dict_get ev "status") (VStr "enabled")
          then dict_set ev "status" (VStr "Enabled")
          else ev
        else ev in
      Ok (dict_set acc "notification_settings" (VDict ev'))
  | ev =>
      b <- py_in "status" ev ;;
      if b then Raise TypeError
      else Ok (dict_set acc "notification_settings" ev)
  end.

(** azure_rm_devtestlabsglobalschedule.py: what is sent is
    [self.schedule]; the arguments are taken in the order of the argument
    spec. *)
Definition AzureRMGlobalSchedules (kwargs : dict) : result template :=
  let s0 := set_field kwargs [] "location" in
  s1 <- schedule_status kwargs s0 ;;
  let s2 := fold_left (set_field kwargs)
              ["task_type"; "weekly_recurrence"; "daily_recurrence";
               "hourly_recurrence"; "time_zone_id"] s1 in
  s3 <- schedule_notification_settings kwargs s2 ;;
  let s4 := fold_left (set_field kwargs)
              ["target_resource_id"; "unique_identifier"] s3 in
  Ok (mkTemplate "Global Schedule" self_parameters (VDict s4) ["id"; "status"]).

(** The methods of the four modules under their own names: each is the
    method of the template for the module's own client and arguments. *)
Module FirewallRule.

Definition get_firewallrule {R : Type} (c : client R) : M R value :=
  get_instance c.

Definition create_update_firewallrule {R : Type} (c : client R) (kwargs : dict)
  : M R value :=
  create_update_instance c (AzureRMFirewallRules kwargs).

Definition delete_firewallrule {R : Type} (c : client R) (kwargs : dict)
  : M R value :=
  delete_instance c (AzureRMFirewallRules kwargs).

End FirewallRule.

Module Environment.

Definition get_environment {R : Type} (c : client R) : M R value :=
  get_instance c.

Definition create_update_environment {R : Type} (c : client R)
    (kwargs : dict) : M R value :=
  create_update_instance c (AzureRMEnvironments kwargs).

Definition delete_environment {R : Type} (c : client R)
    (kwargs : dict) : M R value :=
  delete_instance c (AzureRMEnvironments kwargs).

End Environment.

Module User.

Definition get_user {R : Type} (c : client R) : M R value :=
  get_instance c.

Definition create_update_user {R : Type} (c : client R)
    (kwargs : dict) : M R value :=
  create_update_instance c (AzureRMUsers kwargs).

Definition delete_user {R : Type} (c : client R)
    (kwargs : dict) : M R value :=
  delete_instance c (AzureRMUsers kwargs).

End User.

Module GlobalSchedule.

Definition get_globalschedule {R : Type} (c : client R) : M R value :=
  get_instance c.

End GlobalSchedule.

(** *** azure_rm_rediscache.py

    The file is not valid Python as it stands (a comma is missing between
    lines 164 and 165 and between lines 429 and 430, and line 177 ends in
    a stray closing brace), it names a class [AzureRMWebApps] that nothing
    defines, and [exec_module] calls [self.delete_webapp] and reads
    [self.site], which do not exist either: no run of the module gets as
    far as a reconciliation.  Only the text of its lookup method is
    embedded, to set it beside the lookup of the template.  The conversion
    [rediscache_to_dict], whose own text holds the first of the missing
    commas and has no [return], is a parameter. *)
Module RedisCache.

(** The operation group [self._client.redis]. *)
Record redis_client (R : Type) : Type := mkRedisClient {
  rc_get : R -> result dict * R;
  rc_create : value -> R -> result dict * R;
  rc_update : value -> R -> result dict * R;
  rc_delete : R -> result unit * R
}.

Arguments rc_get {R} r.
Arguments rc_create {R} r.
Arguments rc_update {R} r.
Arguments rc_delete {R} r.

Section Redis.

Variable R : Type.
Variable rc : redis_client R.
Variable rediscache_to_dict : dict -> dict.

(** [get_rediscache], lines 462 to 484:
[[
    try:
        response = self._client.redis.get(...)
        ...
        return rediscache_to_dict(response)
    except CloudError as ex:
        self.log("Didn't find redis cache ...")
    return False
]] *)
Definition get_rediscache : M R value :=
  r <~ call (rc_get rc) CallGet ;;
  match r with
  | Ok d => ret (VDict (rediscache_to_dict d))
  | Raise (CloudError _ _) => ret (VBool false)
  | Raise e => raise e
  end.

End Redis.

Arguments get_rediscache {R} rc rediscache_to_dict.

End RedisCache.

End Driver.

(** * Properties *)

(** ** The comparator *)

Module ComparatorFacts.
Import Py Comparator.

(** *** [sorted] returns a permutation *)

Lemma bind_Ok {A B : Type} (r : result A) (k : A -> result B) (b : B) :
  bind r k = Ok b -> exists a, r = Ok a /\ k a = Ok b.
Proof.
  destruct r as [a | e]; simpl; intros H; [eauto | discriminate].
Qed.

Lemma mapM_length {A B : Type} (f : A -> result B) (l : list A) (r : list B) :
  mapM f l = Ok r -> List.length r = List.length l.
Proof.
  revert r; induction l as [| x l IH]; simpl; intros r H.
  - inversion H; reflexivity.
  - apply bind_Ok in H as (y & _ & H).
    apply bind_Ok in H as (ys & Hys & H).
    inversion H; subst; simpl; f_equal; auto.
Qed.

Lemma insert_by_Permutation kx l r :
  insert_by kx l = Ok r -> Permutation (kx :: l) r.
Proof.
  revert r; induction l as [| ky l IH]; simpl; intros r H.
  - inversion H; auto.
  - apply bind_Ok in H as (b & _ & H).
    destruct b.
    + apply bind_Ok in H as (r' & Hr' & H); inversion H; subst.
      rewrite perm_swap; auto.
    + inversion H; auto.
Qed.

Lemma sort_keyed_Permutation l r :
  sort_keyed l = Ok r -> Permutation l r.
Proof.
  revert r; induction l as [| kx l IH]; simpl; intros r H.
  - inversion H; auto.
  - apply bind_Ok in H as (r' & Hr' & H).
    apply insert_by_Permutation in H.
    rewrite <- H; auto.
Qed.

Lemma map_snd_combine {A B : Type} (ks : list A) (l : list B) :
  List.length ks = List.length l -> map snd (combine ks l) = l.
Proof.
  revert l; induction ks as [| k ks IH]; intros [| x l]; simpl; intros H;
    try discriminate; auto.
  f_equal; auto.
Qed.

Lemma sorted_by_Permutation key l r :
  sorted_by key l = Ok r -> Permutation l r.
Proof.
  unfold sorted_by; intros H.
  apply bind_Ok in H as (ks & Hks & H).
  apply bind_Ok in H as (r' & Hr' & H).
  inversion H; subst.
  apply sort_keyed_Permutation in Hr'.
  apply mapM_length in Hks.
  rewrite <- (map_snd_combine ks l Hks) at 1.
  apply Permutation_map; assumption.
Qed.

Lemma sort_lists_Permutation new old new' old' :
  sort_lists new old = Ok (new', old') ->
  Permutation new new' /\ Permutation old old'.
Proof.
  unfold sort_lists, sorted; intros H.
  destruct old as [| old0 old1]; [discriminate |].
  destruct (is_dict old0).
  - apply bind_Ok in H as (key & _ & H).
    apply bind_Ok in H as (n' & Hn & H).
    apply bind_Ok in H as (o' & Ho & H).
    inversion H; subst.
    split; eapply sorted_by_Permutation; eassumption.
  - apply bind_Ok in H as (n' & Hn & H).
    apply bind_Ok in H as (o' & Ho & H).
    inversion H; subst.
    split; eapply sorted_by_Permutation; eassumption.
Qed.

(** *** Enough fuel *)

Lemma height_In x l : In x l -> height x < height (VList l).
Proof.
  simpl; induction l as [| y l IH]; simpl; intros H; [contradiction |].
  destruct H as [-> | H]; [lia |].
  specialize (IH H); lia.
Qed.

Lemma height_dict_get d k : height (dict_get d k) < height (VDict d).
Proof.
  unfold dict_get; simpl.
  induction d as [| [k' v] d IH]; simpl; [lia |].
  destruct (String.eqb k k'); [lia |].
  destruct (lookup k d); simpl in *; lia.
Qed.

Lemma for_keys_agree rec1 rec2 nd od (path : string) ks :
  (forall k, In k ks ->
     rec1 (dict_get nd k) (dict_get od k) (path ++ "/" ++ k)%string
     = rec2 (dict_get nd k) (dict_get od k) (path ++ "/" ++ k)%string
     /\ rec1 (dict_get nd k) (dict_get od k) (path ++ "/" ++ k)%string <> None) ->
  for_keys rec1 nd od path ks = for_keys rec2 nd od path ks
  /\ for_keys rec1 nd od path ks <> None.
Proof.
  induction ks as [| k ks IH]; cbn [for_keys]; intros H; [split; congruence |].
  destruct (H k (or_introl eq_refl)) as [E N].
  rewrite <- E.
  destruct (rec1 (dict_get nd k) (dict_get od k) (path ++ "/" ++ k)%string)
    as [[[|] | e] |]; try (split; congruence).
  apply IH; intros k' Hk'; apply H; right; assumption.
Qed.

Lemma for_items_agree rec1 rec2 (path : string) ns os :
  (forall n o p, In n ns -> rec1 n o p = rec2 n o p /\ rec1 n o p <> None) ->
  for_items rec1 path ns os = for_items rec2 path ns os
  /\ for_items rec1 path ns os <> None.
Proof.
  revert os; induction ns as [| n ns IH]; cbn [for_items]; intros os H;
    [split; congruence |].
  destruct os as [| o os]; [split; congruence |].
  destruct (H n o (path ++ "/*")%string (or_introl eq_refl)) as [E N].
  rewrite <- E.
  destruct (rec1 n o (path ++ "/*")%string) as [[[|] | e] |]; try (split; congruence).
  apply IH; intros n' o' p' Hn'; apply H; right; assumption.
Qed.

Lemma default_compare_fuel_agree n :
  forall m new old path,
    height new < n -> height new < m ->
    default_compare_fuel n new old path = default_compare_fuel m new old path
    /\ default_compare_fuel n new old path <> None.
Proof.
  induction n as [| n IH]; intros m new old path Hn Hm; [lia |].
  destruct m as [| m]; [lia |].
  destruct new as [| b | z | s | nl | nd]; cbn [default_compare_fuel];
    try (split; congruence).
  - destruct old as [| | | | ol |]; try (split; congruence).
    destruct (negb (Nat.eqb (List.length nl) (List.length ol)));
      [split; congruence |].
    destruct (sort_lists nl ol) as [[nl' ol'] | e] eqn:E;
      [| split; congruence].
    apply sort_lists_Permutation in E as [Pn _].
    apply for_items_agree; intros x o p Hx.
    assert (height x < height (VList nl)).
    { apply height_In. eapply Permutation_in; [symmetry |]; eassumption. }
    apply IH; lia.
  - destruct old as [| | | | | od]; try (split; congruence).
    apply for_keys_agree; intros k _.
    pose proof (height_dict_get nd k).
    apply IH; lia.
Qed.

(** With fuel above the height of [new] the comparison is that of
    [default_compare]: the fuel never runs out. *)
Lemma default_compare_fuel_enough n new old path :
  height new < n ->
  default_compare_fuel n new old path = Some (default_compare new old path).
Proof.
  intros H.
  destruct (default_compare_fuel_agree n (S (height new)) new old path H)
    as [E N]; [lia |].
  unfold default_compare; rewrite <- E.
  destruct (default_compare_fuel n new old path); congruence.
Qed.

(** The recursive call of the loops, once the fuel is out of the way. *)
Definition recur (new old : value) (path : string) : option (result bool) :=
  Some (default_compare new old path).

Lemma default_compare_dict nd od path :
  Some (default_compare (VDict nd) (VDict od) path)
  = for_keys recur nd od path (keys nd).
Proof.
  rewrite <- (default_compare_fuel_enough (S (height (VDict nd)))); [| lia].
  cbn [default_compare_fuel].
  apply for_keys_agree; intros k _.
  pose proof (height_dict_get nd k).
  unfold recur; rewrite <- (default_compare_fuel_enough (height (VDict nd)));
    [| assumption].
  split; [reflexivity |].
  rewrite default_compare_fuel_enough; [discriminate | assumption].
Qed.

Lemma default_compare_list nl ol path :
  Some (default_compare (VList nl) (VList ol) path)
  = if negb (Nat.eqb (List.length nl) (List.length ol)) then Some (Ok false)
    else
      match sort_lists nl ol with
      | Raise e => Some (Raise e)
      | Ok (nl', ol') => for_items recur path nl' ol'
      end.
Proof.
  rewrite <- (default_compare_fuel_enough (S (height (VList nl)))); [| lia].
  cbn [default_compare_fuel].
  destruct (negb (Nat.eqb (List.length nl) (List.length ol))); [reflexivity |].
  destruct (sort_lists nl ol) as [[nl' ol'] | e] eqn:E; [| reflexivity].
  apply sort_lists_Permutation in E as [Pn _].
  apply for_items_agree; intros x o p Hx.
  assert (height x < height (VList nl)).
  { apply height_In. eapply Permutation_in; [symmetry |]; eassumption. }
  unfold recur; rewrite <- (default_compare_fuel_enough (height (VList nl)));
    [| assumption].
  split; [reflexivity |].
  rewrite default_compare_fuel_enough; [discriminate | assumption].
Qed.

(** *** Sorting by keys that are distinct and of one kind

    When the sort keys are pairwise distinct integers, or pairwise distinct
    strings, [sorted] does not raise and what it returns does not depend on
    the order of its input. *)

Section OrderedKeys.

Variable P : value -> Prop.
Variable ltk : value -> value -> bool.
Hypothesis py_lt_ltk : forall a b, P a -> P b -> py_lt a b = Ok (ltk a b).
Hypothesis ltk_asym : forall a b, P a -> P b -> ltk a b = true -> ltk b a = false.
Hypothesis ltk_trans :
  forall a b c, P a -> P b -> P c ->
                ltk a b = true -> ltk b c = true -> ltk a c = true.
Hypothesis ltk_total :
  forall a b, P a -> P b -> a <> b -> ltk a b = true \/ ltk b a = true.

Definition before (x y : value * value) : Prop := ltk (fst x) (fst y) = true.

Definition keys_in_P (l : list (value * value)) : Prop :=
  Forall (fun kx => P (fst kx)) l.

Lemma insert_by_sorted kx l :
  P (fst kx) -> keys_in_P l -> ~ In (fst kx) (map fst l) ->
  StronglySorted before l ->
  exists r, insert_by kx l = Ok r /\ StronglySorted before r.
Proof.
  intros Px; induction l as [| ky l IH]; intros Pl Hnot Hs.
  - exists [kx]; split; [reflexivity | repeat constructor].
  - inversion Pl as [| ? ? Py Pl']; subst.
    inversion Hs as [| ? ? Hs' Hall]; subst.
    cbn [insert_by]; rewrite (py_lt_ltk _ _ Py Px); cbn [bind].
    destruct (ltk (fst ky) (fst kx)) eqn:E.
    + destruct IH as (r & Hr & Sr); auto.
      { intros Hin; apply Hnot; right; exact Hin. }
      rewrite Hr; cbn [bind].
      exists (ky :: r); split; [reflexivity |].
      constructor; [exact Sr |].
      apply insert_by_Permutation in Hr.
      eapply Permutation_Forall; [exact Hr |].
      constructor; assumption.
    + exists (kx :: ky :: l); split; [reflexivity |].
      assert (B : before kx ky).
      { destruct (ltk_total (fst kx) (fst ky) Px Py) as [H | H].
        - intros Heq; apply Hnot; left; symmetry; exact Heq.
        - exact H.
        - congruence. }
      constructor; [exact Hs |].
      constructor; [exact B |].
      rewrite Forall_forall in *; intros z Hz.
      unfold before in *.
      apply (ltk_trans _ (fst ky)); auto.
Qed.

Lemma sort_keyed_sorted l :
  keys_in_P l -> NoDup (map fst l) ->
  exists r, sort_keyed l = Ok r /\ StronglySorted before r.
Proof.
  induction l as [| kx l IH]; intros Pl Hnd.
  - exists []; split; [reflexivity | constructor].
  - inversion Pl as [| ? ? Px Pl']; subst.
    cbn [map] in Hnd; inversion Hnd as [| ? ? Hnot Hnd']; subst.
    destruct (IH Pl' Hnd') as (r & Hr & Sr).
    cbn [sort_keyed]; rewrite Hr; cbn [bind].
    pose proof (sort_keyed_Permutation _ _ Hr) as Hp.
    apply insert_by_sorted; auto.
    + eapply Permutation_Forall; eassumption.
    + intros Hin; apply Hnot.
      eapply Permutation_in; [| exact Hin].
      apply Permutation_map; symmetry; exact Hp.
Qed.

Lemma sorted_unique l1 :
  forall l2, keys_in_P l1 ->
             StronglySorted before l1 -> StronglySorted before l2 ->
             Permutation l1 l2 -> l1 = l2.
Proof.
  induction l1 as [| a l1 IH]; intros l2 Pl S1 S2 Hp.
  - apply Permutation_nil in Hp; congruence.
  - destruct l2 as [| b l2].
    { symmetry in Hp; apply Permutation_nil in Hp; discriminate. }
    inversion Pl as [| ? ? Pa Pl1]; subst.
    inversion S1 as [| ? ? S1' A1]; subst.
    inversion S2 as [| ? ? S2' A2]; subst.
    assert (Pb : P (fst b)).
    { unfold keys_in_P in Pl; rewrite Forall_forall in Pl; apply Pl.
      eapply Permutation_in; [symmetry; exact Hp | left; reflexivity]. }
    assert (E : a = b).
    { assert (Ha : In a (b :: l2))
        by (eapply Permutation_in; [exact Hp | left; reflexivity]).
      assert (Hb : In b (a :: l1))
        by (eapply Permutation_in; [symmetry; exact Hp | left; reflexivity]).
      destruct Ha as [Ha | Ha]; [congruence |].
      destruct Hb as [Hb | Hb]; [congruence |].
      rewrite Forall_forall in A1, A2.
      specialize (A1 b Hb); specialize (A2 a Ha); unfold before in *.
      rewrite (ltk_asym _ _ Pa Pb A1) in A2; discriminate. }
    subst b; f_equal.
    apply IH; auto.
    eapply Permutation_cons_inv; exact Hp.
Qed.

Lemma sort_keyed_Permutation_eq l1 l2 :
  keys_in_P l1 -> NoDup (map fst l1) -> Permutation l1 l2 ->
  sort_keyed l1 = sort_keyed l2.
Proof.
  intros Pl Hnd Hp.
  assert (Pl2 : keys_in_P l2) by (eapply Permutation_Forall; eassumption).
  assert (Hnd2 : NoDup (map fst l2)).
  { eapply Permutation_NoDup; [| exact Hnd].
    apply Permutation_map; exact Hp. }
  destruct (sort_keyed_sorted l1 Pl Hnd) as (r1 & H1 & S1).
  destruct (sort_keyed_sorted l2 Pl2 Hnd2) as (r2 & H2 & S2).
  rewrite H1, H2; f_equal.
  apply sorted_unique; auto.
  - eapply Permutation_Forall; [| exact Pl].
    eapply sort_keyed_Permutation; exact H1.
  - rewrite <- (sort_keyed_Permutation _ _ H1).
    rewrite <- (sort_keyed_Permutation _ _ H2).
    exact Hp.
Qed.

End OrderedKeys.

(** *** Sorting by keys of one kind, distinct or not

    On keys that [<] orders totally the sort does not raise, and in what
    it returns no key is less than a key before it. *)

Section KeyOrder.

Variable P : value -> Prop.
Variable ltk : value -> value -> bool.
Hypothesis py_lt_ltk : forall a b, P a -> P b -> py_lt a b = Ok (ltk a b).
Hypothesis ltk_asym :
  forall a b, P a -> P b -> ltk a b = true -> ltk b a = false.
Hypothesis le_trans :
  forall a b c, P a -> P b -> P c ->
                ltk b a = false -> ltk c b = false -> ltk c a = false.

Definition key_le (p q : value * value) : Prop := ltk (fst q) (fst p) = false.

Lemma insert_by_total kx l :
  P (fst kx) -> Forall (fun p => P (fst p)) l ->
  StronglySorted key_le l ->
  exists r, insert_by kx l = Ok r /\ StronglySorted key_le r.
Proof.
  intros Px; induction l as [| ky l IH]; intros Hl Hs.
  - exists [kx]; split; [reflexivity | repeat constructor].
  - inversion Hl as [| ? ? Py Hl']; subst.
    inversion Hs as [| ? ? Hs' Hall]; subst.
    cbn [insert_by]; rewrite (py_lt_ltk _ _ Py Px); cbn [bind].
    destruct (ltk (fst ky) (fst kx)) eqn:E.
    + destruct (IH Hl' Hs') as (r & Hr & Sr).
      rewrite Hr; cbn [bind].
      exists (ky :: r); split; [reflexivity |].
      constructor; [exact Sr |].
      apply insert_by_Permutation in Hr.
      eapply Permutation_Forall; [exact Hr |].
      constructor; [| exact Hall].
      unfold key_le; apply ltk_asym; assumption.
    + exists (kx :: ky :: l); split; [reflexivity |].
      constructor; [exact Hs |].
      constructor; [exact E |].
      rewrite Forall_forall in *; intros q Hq.
      unfold key_le in *.
      apply (le_trans (fst kx) (fst ky) (fst q)); auto.
Qed.

Lemma sort_keyed_total l :
  Forall (fun p => P (fst p)) l ->
  exists r, sort_keyed l = Ok r /\ StronglySorted key_le r.
Proof.
  induction l as [| kx l IH]; intros Hl.
  - exists []; split; [reflexivity | constructor].
  - inversion Hl as [| ? ? Hx Hl']; subst.
    destruct (IH Hl') as (r & Hr & Sr).
    cbn [sort_keyed]; rewrite Hr; cbn [bind].
    apply insert_by_total; auto.
    eapply Permutation_Forall; [| exact Hl'].
    eapply sort_keyed_Permutation; exact Hr.
Qed.

End KeyOrder.

(** The two kinds of keys. *)
Definition is_int (v : value) : Prop := exists z, v = VInt z.
Definition is_str (v : value) : Prop := exists s, v = VStr s.

Definition int_ltb (a b : value) : bool :=
  match a, b with
  | VInt x, VInt y => Z.ltb x y
  | _, _ => false
  end.

Definition str_ltb (a b : value) : bool :=
  match a, b with
  | VStr x, VStr y => String.ltb x y
  | _, _ => false
  end.

Lemma ascii_compare_refl c : Ascii.compare c c = Eq.
Proof. apply N.compare_refl. Qed.

Lemma string_compare_refl s : String.compare s s = Eq.
Proof.
  induction s as [| c s IH]; simpl; [reflexivity |].
  rewrite ascii_compare_refl; exact IH.
Qed.

Lemma string_compare_trans a :
  forall b c, String.compare a b = Lt -> String.compare b c = Lt ->
              String.compare a c = Lt.
Proof.
  induction a as [| x a IH]; intros [| y b] [| z c]; simpl; try congruence.
  unfold Ascii.compare.
  destruct (N.compare_spec (N_of_ascii x) (N_of_ascii y)) as [Exy | Lxy | Gxy];
    try discriminate;
    destruct (N.compare_spec (N_of_ascii y) (N_of_ascii z)) as [Eyz | Lyz | Gyz];
    try discriminate; intros H1 H2.
  - rewrite Exy, Eyz, N.compare_refl. eapply IH; eassumption.
  - rewrite Exy. apply N.compare_lt_iff in Lyz. rewrite Lyz. reflexivity.
  - rewrite <- Eyz. apply N.compare_lt_iff in Lxy. rewrite Lxy. reflexivity.
  - assert (L : (N_of_ascii x < N_of_ascii z)%N) by lia.
    apply N.compare_lt_iff in L. rewrite L. reflexivity.
Qed.

Lemma string_ltb_le_trans x y z :
  String.ltb y x = false -> String.ltb z y = false -> String.ltb z x = false.
Proof.
  unfold String.ltb; intros Hyx Hzy.
  destruct (String.compare z x) eqn:Ezx; try reflexivity.
  destruct (String.compare y x) eqn:Eyx; try discriminate.
  - apply String.compare_eq_iff in Eyx; subst y.
    rewrite Ezx in Hzy; discriminate.
  - assert (Exy : String.compare x y = Lt)
      by (rewrite String.compare_antisym, Eyx; reflexivity).
    rewrite (string_compare_trans z x y Ezx Exy) in Hzy; discriminate.
Qed.

Lemma sort_keyed_ints l1 l2 :
  Forall (fun kx => is_int (fst kx)) l1 -> NoDup (map fst l1) ->
  Permutation l1 l2 -> sort_keyed l1 = sort_keyed l2.
Proof.
  apply (sort_keyed_Permutation_eq is_int int_ltb).
  - intros a b [x ->] [y ->]; reflexivity.
  - intros a b [x ->] [y ->]; simpl; lia.
  - intros a b c [x ->] [y ->] [z ->]; simpl; lia.
  - intros a b [x ->] [y ->] H; simpl.
    assert (x <> y) by congruence; lia.
Qed.

Lemma sort_keyed_strs l1 l2 :
  Forall (fun kx => is_str (fst kx)) l1 -> NoDup (map fst l1) ->
  Permutation l1 l2 -> sort_keyed l1 = sort_keyed l2.
Proof.
  apply (sort_keyed_Permutation_eq is_str str_ltb).
  - intros a b [x ->] [y ->]; reflexivity.
  - intros a b [x ->] [y ->]; simpl; unfold String.ltb.
    rewrite (String.compare_antisym y x).
    destruct (String.compare x y); simpl; congruence.
  - intros a b c [x ->] [y ->] [z ->]; simpl; unfold String.ltb.
    destruct (String.compare x y) eqn:Exy; try discriminate.
    destruct (String.compare y z) eqn:Eyz; try discriminate.
    rewrite (string_compare_trans x y z Exy Eyz); reflexivity.
  - intros a b [x ->] [y ->] H; simpl; unfold String.ltb.
    rewrite (String.compare_antisym y x).
    destruct (String.compare x y) eqn:E; simpl; auto.
    apply String.compare_eq_iff in E; congruence.
Qed.

(** The sort key of an item under the key [k], [None] for what has no
    [get] (where [sort_key] raises instead). *)
Definition key_of (k : string) (v : value) : value :=
  match v with
  | VDict d => dict_get d k
  | _ => VNone
  end.

Definition carries (k : string) (v : value) : bool :=
  match v with
  | VDict d => has_key k d
  | _ => false
  end.

Definition one_kind (ks : list value) : Prop :=
  Forall is_int ks \/ Forall is_str ks.

Lemma mapM_sort_key k l :
  Forall (fun v => is_dict v = true) l ->
  mapM (sort_key (Some k)) l = Ok (map (key_of k) l).
Proof.
  induction 1 as [| v l Hv _ IH]; [reflexivity |].
  destruct v; try discriminate.
  cbn [mapM sort_key bind map key_of]; rewrite IH; reflexivity.
Qed.

Lemma combine_map_key {A B : Type} (f : A -> B) (l : list A) :
  combine (map f l) l = map (fun x => (f x, x)) l.
Proof.
  induction l as [| x l IH]; simpl; [reflexivity | f_equal; exact IH].
Qed.

Lemma sorted_by_key_Permutation k l l' :
  Forall (fun v => is_dict v = true) l ->
  one_kind (map (key_of k) l) -> NoDup (map (key_of k) l) ->
  Permutation l l' ->
  sorted_by (sort_key (Some k)) l = sorted_by (sort_key (Some k)) l'.
Proof.
  intros Hd Hk Hnd Hp.
  assert (Hd' : Forall (fun v => is_dict v = true) l')
    by (eapply Permutation_Forall; eassumption).
  unfold sorted_by.
  rewrite (mapM_sort_key k l Hd), (mapM_sort_key k l' Hd'); cbn [bind].
  rewrite !combine_map_key.
  assert (E : sort_keyed (map (fun x => (key_of k x, x)) l)
              = sort_keyed (map (fun x => (key_of k x, x)) l')).
  { assert (Hm : map fst (map (fun x => (key_of k x, x)) l) = map (key_of k) l)
      by (rewrite map_map; reflexivity).
    destruct Hk as [Hk | Hk].
    - apply sort_keyed_ints.
      + rewrite Forall_map; cbn [fst]; rewrite <- Forall_map; exact Hk.
      + rewrite Hm; exact Hnd.
      + apply Permutation_map; exact Hp.
    - apply sort_keyed_strs.
      + rewrite Forall_map; cbn [fst]; rewrite <- Forall_map; exact Hk.
      + rewrite Hm; exact Hnd.
      + apply Permutation_map; exact Hp. }
  rewrite E; reflexivity.
Qed.

(** [a <= b] for two sort keys that are both integers or both strings. *)
Definition key_leb (a b : value) : bool :=
  match a, b with
  | VInt x, VInt y => Z.leb x y
  | VStr x, VStr y => negb (String.ltb y x)
  | _, _ => false
  end.

(** A list of items in ascending order of their values under the key
    [k]: no item has a greater key than an item after it. *)
Definition sorted_on (k : string) (l : list value) : Prop :=
  StronglySorted (fun x y => key_leb (key_of k x) (key_of k y) = true) l.

Lemma sort_keyed_one_kind (l : list (value * value)) :
  one_kind (map fst l) ->
  exists r, sort_keyed l = Ok r /\
            StronglySorted (fun p q => key_leb (fst p) (fst q) = true) r.
Proof.
  intros [Hk | Hk].
  - destruct (sort_keyed_total is_int int_ltb) with (l := l) as (r & Hr & Sr).
    + intros a b [x ->] [y ->]; reflexivity.
    + intros a b [x ->] [y ->]; simpl; lia.
    + intros a b c [x ->] [y ->] [z ->]; simpl; lia.
    + rewrite Forall_map in Hk; exact Hk.
    + exists r; split; [exact Hr |].
      assert (Hi : Forall (fun p : value * value => is_int (fst p)) r).
      { eapply Permutation_Forall; [eapply sort_keyed_Permutation; exact Hr |].
        rewrite Forall_map in Hk; exact Hk. }
      clear Hr; induction Sr as [| p r Sr IH Hall]; constructor.
      * apply IH; inversion Hi; assumption.
      * inversion Hi as [| ? ? [x Hx] Hi']; subst.
        rewrite Forall_forall in *; intros q Hq.
        specialize (Hall q Hq); destruct (Hi' q Hq) as [y Hy].
        unfold key_le in Hall; rewrite Hx, Hy in *; simpl in *; lia.
  - destruct (sort_keyed_total is_str str_ltb) with (l := l) as (r & Hr & Sr).
    + intros a b [x ->] [y ->]; reflexivity.
    + intros a b [x ->] [y ->]; simpl; unfold String.ltb.
      rewrite (String.compare_antisym y x).
      destruct (String.compare x y); simpl; congruence.
    + intros a b c [x ->] [y ->] [z ->]; simpl; apply string_ltb_le_trans.
    + rewrite Forall_map in Hk; exact Hk.
    + exists r; split; [exact Hr |].
      assert (Hi : Forall (fun p : value * value => is_str (fst p)) r).
      { eapply Permutation_Forall; [eapply sort_keyed_Permutation; exact Hr |].
        rewrite Forall_map in Hk; exact Hk. }
      clear Hr; induction Sr as [| p r Sr IH Hall]; constructor.
      * apply IH; inversion Hi; assumption.
      * inversion Hi as [| ? ? [x Hx] Hi']; subst.
        rewrite Forall_forall in *; intros q Hq.
        specialize (Hall q Hq); destruct (Hi' q Hq) as [y Hy].
        unfold key_le in Hall; rewrite Hx, Hy in *; simpl in *.
        rewrite Hall; reflexivity.
Qed.

(** Sorting dicts by a key whose values are all integers, or all strings,
    returns, and what it returns is the same items in ascending order of
    that key. *)
Lemma sorted_by_key_sorted k l :
  Forall (fun v => is_dict v = true) l ->
  one_kind (map (key_of k) l) ->
  exists l', sorted_by (sort_key (Some k)) l = Ok l' /\
             Permutation l l' /\ sorted_on k l'.
Proof.
  intros Hd Hk; unfold sorted_by.
  rewrite (mapM_sort_key k l Hd); cbn [bind].
  rewrite combine_map_key.
  destruct (sort_keyed_one_kind (map (fun x => (key_of k x, x)) l))
    as (r & Hr & Sr).
  { rewrite map_map; cbn [fst]; exact Hk. }
  rewrite Hr; cbn [bind].
  pose proof (sort_keyed_Permutation _ _ Hr) as Hp.
  exists (map snd r); split; [reflexivity |].
  split.
  - rewrite <- (map_id l) at 1.
    replace (map (fun x => x) l)
      with (map snd (map (fun x : value => (key_of k x, x)) l))
      by (rewrite map_map; reflexivity).
    apply Permutation_map; exact Hp.
  - assert (Hf : Forall (fun p : value * value => fst p = key_of k (snd p)) r).
    { eapply Permutation_Forall; [exact Hp |].
      rewrite Forall_map; apply Forall_forall; reflexivity. }
    unfold sorted_on.
    clear Hr Hp; induction Sr as [| p r Sr IH Hall]; cbn [map]; constructor.
    + apply IH; inversion Hf; assumption.
    + inversion Hf as [| ? ? Hp Hf']; subst.
      rewrite Forall_map; rewrite Forall_forall in *; intros q Hq.
      rewrite <- Hp, <- (Hf' q Hq); exact (Hall q Hq).
Qed.

Lemma carries_is_dict k v : carries k v = true -> is_dict v = true.
Proof. destruct v; simpl; congruence. Qed.

Lemma discover_key_common k old0 new0 new1 :
  carries k old0 = true -> carries k new0 = true ->
  k = "id" \/ (k = "name" /\ carries "id" old0 = false) ->
  discover_key old0 (new0 :: new1) = Ok (Some k).
Proof.
  intros Ho Hn Hk.
  destruct old0 as [| | | | | od]; try discriminate.
  destruct new0 as [| | | | | nd]; try discriminate.
  unfold discover_key, both_have; simpl in *.
  destruct Hk as [-> | [-> Hid]].
  - rewrite Ho, Hn; reflexivity.
  - rewrite Hid, Ho, Hn; reflexivity.
Qed.

(** The sorting step does not see a reordering of [old] when every item of
    [old] and the first item of [new] carry the key and the keys of [old]
    are distinct and of one kind. *)
Lemma sort_lists_Permutation_eq k new old old' :
  Permutation old old' ->
  Forall (fun v => carries k v = true) new ->
  Forall (fun v => carries k v = true) old ->
  k = "id" \/ (k = "name" /\ Forall (fun v => carries "id" v = false) old) ->
  one_kind (map (key_of k) old) ->
  NoDup (map (key_of k) old) ->
  sort_lists new old' = sort_lists new old.
Proof.
  intros Hp Hn Ho Hk Hkind Hnd.
  assert (Ho' : Forall (fun v => carries k v = true) old')
    by (eapply Permutation_Forall; eassumption).
  assert (Hk' : k = "id"
                \/ (k = "name" /\ Forall (fun v => carries "id" v = false) old')).
  { destruct Hk as [Hk | [Hk Hid]]; [left; exact Hk | right; split; auto].
    eapply Permutation_Forall; eassumption. }
  assert (Hd : Forall (fun v => is_dict v = true) old).
  { eapply Forall_impl; [| exact Ho]; intros v; apply carries_is_dict. }
  destruct old as [| o os].
  { apply Permutation_nil in Hp; subst; reflexivity. }
  destruct old' as [| o' os'].
  { symmetry in Hp; apply Permutation_nil in Hp; discriminate. }
  inversion Ho as [| ? ? Co _]; subst.
  inversion Ho' as [| ? ? Co' _]; subst.
  unfold sort_lists.
  rewrite (carries_is_dict k o Co), (carries_is_dict k o' Co').
  destruct new as [| n ns].
  { destruct o as [| | | | | od]; try discriminate.
    destruct o' as [| | | | | od']; try discriminate.
    unfold discover_key, both_have; simpl in *.
    destruct Hk as [-> | [-> Hid]].
    - rewrite Co, Co'; reflexivity.
    - destruct Hk' as [Hk' | [_ Hid']]; [discriminate |].
      inversion Hid; inversion Hid'; subst; simpl in *.
      repeat match goal with H : has_key _ _ = _ |- _ => rewrite H end.
      reflexivity. }
  inversion Hn as [| ? ? Cn _]; subst.
  rewrite (discover_key_common k o n ns Co Cn),
    (discover_key_common k o' n ns Co' Cn).
  - cbn [bind].
    rewrite (sorted_by_key_Permutation k (o :: os) (o' :: os')); auto.
  - destruct Hk' as [Hk' | [Hk' Hid]]; [left; exact Hk' | right; split; auto].
    inversion Hid; assumption.
  - destruct Hk as [Hk | [Hk Hid]]; [left; exact Hk | right; split; auto].
    inversion Hid; assumption.
Qed.

(** *** Comparing a value with itself *)

Lemma py_eq_scalar_refl v :
  match v with VBool _ | VInt _ | VStr _ => py_eq v v = true | _ => True end.
Proof.
  destruct v; simpl; auto using Z.eqb_refl, String.eqb_refl.
Qed.

Lemma sort_lists_same l new' old' :
  sort_lists l l = Ok (new', old') -> new' = old'.
Proof.
  unfold sort_lists; intros H.
  destruct l as [| x l]; [discriminate |].
  destruct (is_dict x).
  - apply bind_Ok in H as (key & _ & H).
    apply bind_Ok in H as (n' & Hn & H).
    apply bind_Ok in H as (o' & Ho & H).
    inversion H; congruence.
  - apply bind_Ok in H as (n' & Hn & H).
    apply bind_Ok in H as (o' & Ho & H).
    inversion H; congruence.
Qed.

Lemma default_compare_fuel_self n :
  forall v path b, default_compare_fuel n v v path = Some (Ok b) -> b = true.
Proof.
  induction n as [| n IH]; intros v path b; [discriminate |].
  destruct v as [| x | z | s | l | d]; cbn [default_compare_fuel].
  - congruence.
  - pose proof (py_eq_scalar_refl (VBool x)); simpl in *; congruence.
  - pose proof (py_eq_scalar_refl (VInt z)); simpl in *; congruence.
  - pose proof (py_eq_scalar_refl (VStr s)); simpl in *; congruence.
  - rewrite Nat.eqb_refl; cbn [negb].
    destruct (sort_lists l l) as [[n' o'] | e] eqn:E; [| discriminate].
    apply sort_lists_same in E; subst o'.
    induction n' as [| x xs IHxs]; cbn [for_items]; [congruence |].
    destruct (default_compare_fuel n x x (path ++ "/*")%string)
      as [[[|] | e] |] eqn:Ex; try discriminate; auto.
    apply IH in Ex; discriminate.
  - generalize (keys d); intros ks.
    induction ks as [| k ks IHks]; cbn [for_keys]; [congruence |].
    destruct (default_compare_fuel n (dict_get d k) (dict_get d k)
                (path ++ "/" ++ k)%string) as [[[|] | e] |] eqn:Ek;
      try discriminate; auto.
    apply IH in Ek; discriminate.
Qed.

(** Whenever comparing a value with itself returns, it returns [True]. *)
Lemma default_compare_self_returns_true v path b :
  default_compare v v path = Ok b -> b = true.
Proof.
  intros H.
  apply (default_compare_fuel_self (S (height v)) v path).
  rewrite default_compare_fuel_enough; [congruence | lia].
Qed.

End ComparatorFacts.

Module ComparatorClaims.
Import Py Comparator ComparatorFacts.

(** C1.  The claim is that [compare] of an empty desired sequence against
    an empty actual sequence returns true and never raises.  The code
    evaluates [old[0]] right after the length check, with no guard for a
    list of length zero: [default_compare([], [], path)] raises
    [IndexError]. *)
Theorem default_compare_empty_lists_raise (path : string) :
  default_compare (VList []) (VList []) path = Raise IndexError.
Proof.
  reflexivity.
Qed.

(** C8.  The claim is that [compare(actual, actual)] is true for every
    actual value.  An actual state that holds an empty list anywhere the
    comparison reaches meets the unguarded [old[0]] of C1: comparing
    [{'name': 'rule1', 'tags': []}] with itself raises [IndexError]. *)
Theorem default_compare_self_with_empty_list_raises (path : string) :
  let actual := VDict [("name", VStr "rule1"); ("tags", VList [])] in
  default_compare actual actual path = Raise IndexError.
Proof.
  reflexivity.
Qed.

(** C10.  For two non-empty lists whose first items are dicts, the sort key
    is found from the first items alone: 'id' exactly when both first
    items have it, otherwise 'name' exactly when both first items have it,
    otherwise none; no later item is asked whether it has the key.  Both
    whole lists are then sorted by [x.get(key, None)]: the sort key of an
    item is its value under the key, and [None] when it lacks the key; and
    when the items of both lists are dicts whose values under the key are
    all integers, or all strings, the sorting step returns the items of
    either list in ascending order of that value.  The items are compared
    pairwise in that order. *)
Theorem sort_key_from_first_items_only
    (new0 old0 : dict) (new1 old1 : list value) (path : string) :
  let new := VDict new0 :: new1 in
  let old := VDict old0 :: old1 in
  let both k := has_key k old0 && has_key k new0 in
  exists key : option string,
    (key = Some "id" <-> both "id" = true) /\
    (key = Some "name" <-> both "id" = false /\ both "name" = true) /\
    (key = None <-> both "id" = false /\ both "name" = false) /\
    sort_lists new old
    = (new' <- sorted_by (sort_key key) new ;;
       old' <- sorted_by (sort_key key) old ;;
       Ok (new', old')) /\
    (forall k d, key = Some k -> sort_key key (VDict d) = Ok (dict_get d k)) /\
    (forall k d, key = Some k -> has_key k d = false ->
                 sort_key key (VDict d) = Ok VNone) /\
    (forall k, key = Some k ->
       Forall (fun v => is_dict v = true) new ->
       Forall (fun v => is_dict v = true) old ->
       one_kind (map (key_of k) new) -> one_kind (map (key_of k) old) ->
       exists new' old',
         sort_lists new old = Ok (new', old') /\
         Permutation new new' /\ sorted_on k new' /\
         Permutation old old' /\ sorted_on k old') /\
    Some (default_compare (VList new) (VList old) path)
    = if negb (Nat.eqb (List.length new) (List.length old)) then Some (Ok false)
      else
        match (new' <- sorted_by (sort_key key) new ;;
               old' <- sorted_by (sort_key key) old ;;
               Ok (new', old')) with
        | Raise e => Some (Raise e)
        | Ok (new', old') => for_items recur path new' old'
        end.
Proof.
  intros new old both.
  assert (E : discover_key (VDict old0) new
              = Ok (if both "id" then Some "id"
                    else if both "name" then Some "name" else None)).
  { unfold discover_key, both_have, both; simpl.
    destruct (has_key "id" old0), (has_key "id" new0),
      (has_key "name" old0), (has_key "name" new0); reflexivity. }
  assert (S : sort_lists new old
              = (new' <- sorted_by (sort_key
                    (if both "id" then Some "id"
                     else if both "name" then Some "name" else None)) new ;;
                 old' <- sorted_by (sort_key
                    (if both "id" then Some "id"
                     else if both "name" then Some "name" else None)) old ;;
                 Ok (new', old'))).
  { unfold sort_lists; unfold old at 1; cbn [is_dict]; rewrite E; reflexivity. }
  exists (if both "id" then Some "id"
          else if both "name" then Some "name" else None).
  split; [| split; [| split; [| split; [| split; [| split; [| split]]]]]].
  - split.
    + destruct (both "id"); [reflexivity |].
      destruct (both "name"); discriminate.
    + intros ->; reflexivity.
  - split.
    + destruct (both "id"); [discriminate |].
      destruct (both "name"); [split; reflexivity | discriminate].
    + intros [-> ->]; reflexivity.
  - split.
    + destruct (both "id"); [discriminate |].
      destruct (both "name"); [discriminate | split; reflexivity].
    + intros [-> ->]; reflexivity.
  - exact S.
  - intros k d Hk; rewrite Hk; reflexivity.
  - intros k d Hk Hd; rewrite Hk; unfold sort_key, dict_get.
    unfold has_key in Hd.
    destruct (lookup k d); [discriminate | reflexivity].
  - intros k Hk Hdn Hdo Hkn Hko.
    rewrite S, Hk.
    destruct (sorted_by_key_sorted k new Hdn Hkn) as (new' & En & Pn & Sn).
    destruct (sorted_by_key_sorted k old Hdo Hko) as (old' & Eo & Po & So).
    exists new', old'; rewrite En, Eo; cbn [bind]; auto.
  - rewrite default_compare_list, S; reflexivity.
Qed.

(** Two lists that hold the same two items in different orders: the key is
    'id', and both come out of the sorting step in the order of their
    ids. *)
Lemma sort_key_from_first_items_only_witness :
  let a := VDict [("id", VInt 1); ("v", VStr "a")] in
  let b := VDict [("id", VInt 2); ("v", VStr "b")] in
  sort_lists [b; a] [a; b] = Ok ([a; b], [a; b]) /\
  default_compare (VList [b; a]) (VList [a; b]) "" = Ok true.
Proof.
  intros a b.
  destruct (sort_key_from_first_items_only
              [("id", VInt 2); ("v", VStr "b")] [("id", VInt 1); ("v", VStr "a")]
              [a] [b] "")
    as (key & Hid & _ & _ & Hs & _ & _ & _ & Hc).
  assert (Hk : key = Some "id") by (apply Hid; reflexivity).
  subst key; split.
  - exact Hs.
  - cbv zeta in Hc; cbn in Hc; inversion Hc; reflexivity.
Defined.

(** C7, as the code has it.  When every item of both lists is a dict that
    carries 'id' (or every item carries 'name' and no item of the actual
    list carries 'id'), and the sort keys of the actual list are pairwise
    distinct and of one kind, all integers or all strings, then the
    comparison gives the same result, be it a value or an exception, for
    every reordering of the actual list. *)
Theorem default_compare_permutation_of_actual
    (k : string) (new old old' : list value) (path : string) :
  Permutation old old' ->
  Forall (fun v => carries k v = true) new ->
  Forall (fun v => carries k v = true) old ->
  k = "id" \/ (k = "name" /\ Forall (fun v => carries "id" v = false) old) ->
  one_kind (map (key_of k) old) ->
  NoDup (map (key_of k) old) ->
  default_compare (VList new) (VList old') path
  = default_compare (VList new) (VList old) path.
Proof.
  intros Hp Hn Ho Hk Hkind Hnd.
  assert (E : Some (default_compare (VList new) (VList old') path)
              = Some (default_compare (VList new) (VList old) path)).
  { rewrite !default_compare_list.
    rewrite (Permutation_length Hp).
    rewrite (sort_lists_Permutation_eq k new old old'); auto. }
  congruence.
Qed.

(** The spec's example, through the theorem:
    [compare([{id:1,v:"a"},{id:2,v:"b"}], [{id:2,v:"b"},{id:1,v:"a"}])]
    is true. *)
Lemma default_compare_permutation_of_actual_witness :
  let a := VDict [("id", VInt 1); ("v", VStr "a")] in
  let b := VDict [("id", VInt 2); ("v", VStr "b")] in
  default_compare (VList [a; b]) (VList [b; a]) "" = Ok true.
Proof.
  intros a b.
  rewrite (default_compare_permutation_of_actual "id" [a; b] [a; b] [b; a] "").
  - reflexivity.
  - apply perm_swap.
  - repeat constructor.
  - repeat constructor.
  - left; reflexivity.
  - left; repeat constructor; eexists; reflexivity.
  - repeat constructor; simpl; intuition discriminate.
Defined.

(** C7 as stated fails when two items of the actual list have the same
    'id': the sort is stable, so such items keep the order they came in
    and are compared with different partners after a reordering. *)
Lemma default_compare_permutation_duplicate_ids :
  let a := VDict [("id", VInt 1); ("v", VStr "a")] in
  let b := VDict [("id", VInt 1); ("v", VStr "b")] in
  Permutation [a; b] [b; a] /\
  Forall (fun v => carries "id" v = true) [a; b] /\
  List.length [a; b] = List.length [b; a] /\
  default_compare (VList [a; b]) (VList [a; b]) "" = Ok true /\
  default_compare (VList [a; b]) (VList [b; a]) "" = Ok false.
Proof.
  intros a b; repeat split.
  - apply perm_swap.
  - repeat constructor.
Qed.

End ComparatorClaims.

(** ** The drivers *)

Module DriverFacts.
Import Py Comparator Driver.

(** An answer of [get] after which the lookup method returns a false
    value: a [CloudError], or a model whose dict is empty. *)
Definition absent_answer (a : result dict) : bool :=
  match a with
  | Ok d => negb (truthy (VDict d))
  | Raise (CloudError _ _) => true
  | Raise _ => false
  end.

(** The calls of the loop that waits for the deletion: a [get] that finds
    the resource and a sleep of 20, for each item of [polls], then the
    [get] that ends the loop. *)
Definition poll_events (polls : list dict) (last : result dict) : list event :=
  flat_map (fun d => [CallGet (Ok d); Sleep 20]) polls ++ [CallGet last].

Lemma dict_get_set_other (d : dict) (k k' : string) (v : value) :
  k <> k' -> dict_get (dict_set d k' v) k = dict_get d k.
Proof.
  intros Hk; unfold dict_get.
  induction d as [| [k0 v0] d IH]; cbn [dict_set lookup].
  - apply String.eqb_neq in Hk; rewrite Hk; reflexivity.
  - destruct (String.eqb k' k0) eqn:E0; cbn [lookup].
    + apply String.eqb_eq in E0; subst k0.
      apply String.eqb_neq in Hk; rewrite Hk; reflexivity.
    + destruct (String.eqb k k0); [reflexivity | exact IH].
Qed.

Lemma dict_get_update_other (e d : dict) (k : string) :
  ~ In k (map fst e) -> dict_get (dict_update d e) k = dict_get d k.
Proof.
  unfold dict_update; revert d.
  induction e as [| [k' v] e IH]; intros d Hk; [reflexivity |].
  cbn [fold_left fst snd].
  rewrite IH; [| intros H; apply Hk; right; exact H].
  apply dict_get_set_other.
  intros ->; apply Hk; left; reflexivity.
Qed.

(** [format_item] and the update of the results leave 'changed' as it is,
    for a module whose [format_item] has no key 'changed'. *)
Lemma finish_changed {R : Type} (t : template) (st : state)
    (results res : dict) (response : value) (w w' : world R) :
  ~ In "changed" (item_keys t) ->
  finish t st results response w = Some (Returned res, w') ->
  dict_get res "changed" = dict_get results "changed" /\ w' = w.
Proof.
  intros Hk; unfold finish.
  destruct st; [| intros H; inversion H; auto].
  unfold mbind, lift, format_item.
  destruct response as [| | | | | d]; try discriminate.
  cbn [ret]; intros H; inversion H; subst; split; [| reflexivity].
  apply dict_get_update_other.
  rewrite map_map; cbn [fst]; rewrite map_id; exact Hk.
Qed.

Section TemplateFacts.

Variable R : Type.
Variable c : client R.

(** From the remote state [r], [get] answers with the models [polls], one
    after the other, and then with [last], leaving the remote state
    [r']. *)
Fixpoint answers (r : R) (polls : list dict) (last : result dict) (r' : R)
  : Prop :=
  match polls with
  | [] => cl_get c r = (last, r')
  | d :: polls' =>
      exists r1, cl_get c r = (Ok d, r1) /\ answers r1 polls' last r'
  end.

Lemma get_instance_eq (w : world R) :
  get_instance c w
  = let '(answer, rem) := cl_get c (remote w) in
    let w' := mkWorld rem (calls w ++ [CallGet answer]) in
    match answer with
    | Ok d => Some (Returned (VDict d), w')
    | Raise (CloudError _ _) => Some (Returned (VBool false), w')
    | Raise e => Some (Uncaught e, w')
    end.
Proof.
  unfold get_instance, mbind, call.
  destruct (cl_get c (remote w)) as [[d | e] rem]; [reflexivity |].
  destruct e; reflexivity.
Qed.

(** What a lookup that returns leaves behind: one more call, a [get]. *)
Lemma get_instance_returned (w w1 : world R) (v : value) :
  get_instance c w = Some (Returned v, w1) ->
  exists answer,
    cl_get c (remote w) = (answer, remote w1) /\
    calls w1 = calls w ++ [CallGet answer] /\
    truthy v = negb (absent_answer answer).
Proof.
  rewrite get_instance_eq.
  destruct (cl_get c (remote w)) as [[d | e] rem]; cbn.
  - intros H; inversion H; subst; cbn [remote calls].
    exists (Ok d); repeat split; destruct d; reflexivity.
  - destruct e; intros H; inversion H; subst; cbn.
    eexists; eauto.
Qed.

Lemma wait_deleted_returns fuel :
  forall r tr polls last r',
    answers r polls last r' ->
    Forall (fun d => truthy (VDict d) = true) polls ->
    absent_answer last = true ->
    List.length polls < fuel ->
    wait_deleted c fuel (mkWorld r tr)
    = Some (Returned tt, mkWorld r' (tr ++ poll_events polls last)).
Proof.
  induction fuel as [| fuel IH]; intros r tr polls last r' Ha Hp Hl Hf;
    [lia |].
  cbn [wait_deleted]; unfold mbind at 1; rewrite get_instance_eq; cbn [remote calls].
  destruct polls as [| d polls]; cbn [answers] in Ha.
  - rewrite Ha.
    destruct last as [d | e]; cbn in Hl |- *.
    + apply negb_true_iff in Hl; cbn in Hl; rewrite Hl; reflexivity.
    + destruct e; try discriminate; reflexivity.
  - destruct Ha as (r1 & Hg & Ha); rewrite Hg.
    inversion Hp as [| ? ? Hd Hp']; subst.
    rewrite Hd; unfold mbind, sleep; cbn [remote calls].
    rewrite (IH r1 _ polls last r' Ha Hp' Hl); [| cbn in Hf; lia].
    unfold poll_events; cbn [flat_map]; rewrite <- !app_assoc; reflexivity.
Qed.

Lemma wait_deleted_returned fuel :
  forall (w w' : world R),
    wait_deleted c fuel w = Some (Returned tt, w') ->
    exists polls last,
      answers (remote w) polls last (remote w') /\
      Forall (fun d => truthy (VDict d) = true) polls /\
      absent_answer last = true /\
      List.length polls < fuel /\
      calls w' = calls w ++ poll_events polls last.
Proof.
  induction fuel as [| fuel IH]; intros w w' H; [discriminate |].
  cbn [wait_deleted] in H; unfold mbind at 1 in H.
  rewrite get_instance_eq in H.
  destruct (cl_get c (remote w)) as [[d | e] rem] eqn:Hg;
    cbv beta iota zeta in H.
  - destruct (truthy (VDict d)) eqn:Hd.
    + unfold mbind, sleep in H; cbn [remote calls] in H.
      apply IH in H as (polls & last & Ha & Hp & Hl & Hf & Hc).
      cbn [remote calls] in *.
      exists (d :: polls), last; repeat split; auto.
      * cbn [answers]; eauto.
      * cbn; lia.
      * rewrite Hc; unfold poll_events; cbn [flat_map].
        rewrite <- !app_assoc; reflexivity.
    + inversion H; subst; cbn [remote calls].
      exists [], (Ok d); split; [exact Hg |].
      split; [constructor |].
      split; [unfold absent_answer; rewrite Hd; reflexivity |].
      split; [cbn; lia | reflexivity].
  - destruct e; try discriminate H.
    inversion H; subst; cbn [remote calls].
    exists [], (Raise (CloudError status_code message)).
    split; [exact Hg |].
    split; [constructor |].
    split; [reflexivity |].
    split; [cbn; lia | reflexivity].
Qed.

Variable t : template.

(** [exec_module] once the lookup has returned [v]. *)
Lemma exec_module_after_lookup st check_mode fuel (w w1 : world R) v :
  get_instance c w = Some (Returned v, w1) ->
  exec_module c t st check_mode fuel w
  = match decide t st v with
    | Raise e => Some (Uncaught e, w1)
    | Ok Create | Ok Update =>
        if check_mode then Some (Returned [("changed", VBool true)], w1)
        else
          (response <~ create_update_instance c t ;;
           finish t st [("changed", VBool true)] response) w1
    | Ok Delete =>
        if check_mode then Some (Returned [("changed", VBool true)], w1)
        else
          (_ <~ delete_instance c t ;;
           _ <~ wait_deleted c fuel ;;
           finish t st [("changed", VBool true)] VNone) w1
    | Ok NoAction => finish t st [("changed", VBool false)] v w1
    end.
Proof.
  intros H; unfold exec_module, mbind at 1; rewrite H.
  unfold mbind at 1.
  destruct (decide t st v) as [[| | |] | e]; cbn [lift ret raise];
    try reflexivity; destruct check_mode; reflexivity.
Qed.

Lemma create_update_instance_eq (w : world R) :
  create_update_instance c t w
  = let '(answer, rem) := cl_create_or_update c (payload t) (remote w) in
    let w' := mkWorld rem (calls w ++ [CallCreateOrUpdate (payload t) answer]) in
    match answer with
    | Ok d => Some (Returned (VDict d), w')
    | Raise (CloudError _ msg) =>
        Some (FailJson ("Error creating the " ++ label t ++ " instance: " ++ msg)%string, w')
    | Raise e => Some (Uncaught e, w')
    end.
Proof.
  unfold create_update_instance, mbind, call.
  destruct (cl_create_or_update c (payload t) (remote w)) as [[d | e] rem];
    [reflexivity |].
  destruct e; reflexivity.
Qed.

Lemma delete_instance_eq (w : world R) :
  delete_instance c t w
  = let '(answer, rem) := cl_delete c (remote w) in
    let w' := mkWorld rem (calls w ++ [CallDelete answer]) in
    match answer with
    | Ok _ => Some (Returned (VBool true), w')
    | Raise (CloudError _ msg) =>
        Some (FailJson ("Error deleting the " ++ label t ++ " instance: " ++ msg)%string, w')
    | Raise e => Some (Uncaught e, w')
    end.
Proof.
  unfold delete_instance, mbind, call.
  destruct (cl_delete c (remote w)) as [[u | e] rem]; [reflexivity |].
  destruct e; reflexivity.
Qed.

Lemma finish_world st results response (w w' : world R) o :
  finish t st results response w = Some (o, w') -> w' = w.
Proof.
  unfold finish, mbind, lift.
  destruct st; [| cbn; intros H; inversion H; reflexivity].
  destruct (format_item t response); cbn; intros H; inversion H; reflexivity.
Qed.

(** In check mode a module of the template makes one call, the lookup,
    however the invocation ends. *)
Lemma check_mode_calls_only_lookup st fuel (w w' : world R) o :
  exec_module c t st true fuel w = Some (o, w') ->
  exists answer, calls w' = calls w ++ [CallGet answer].
Proof.
  unfold exec_module, mbind at 1; rewrite get_instance_eq.
  destruct (cl_get c (remote w)) as [answer rem].
  assert (K : forall v,
    (to_do <~ lift (decide t st v) ;;
     match to_do with
     | Create | Update => ret (dict_set [("changed", VBool false)] "changed" (VBool true))
     | Delete => ret (dict_set [("changed", VBool false)] "changed" (VBool true))
     | NoAction =>
         finish t st (dict_set [("changed", VBool false)] "changed" (VBool false)) v
     end) (mkWorld rem (calls w ++ [CallGet answer]))
    = Some (o, w') ->
    calls w' = calls w ++ [CallGet answer]).
  { intros v; unfold mbind, lift.
    destruct (decide t st v) as [[| | |] | e]; cbn [ret raise];
      try (intros H; inversion H; reflexivity).
    intros H; apply finish_world in H; subst; reflexivity. }
  intros H; exists answer.
  destruct answer as [d | e]; cbv beta iota zeta in H.
  - apply (K (VDict d)); exact H.
  - destruct e; try (inversion H; reflexivity).
    apply (K (VBool false)); exact H.
Qed.

End TemplateFacts.

End DriverFacts.

Module DriverClaims.
Import Py Comparator Driver DriverFacts.
Import RedisCache (redis_client, mkRedisClient, rc_get, get_rediscache).

(** A remote system for the examples: it holds the model of the resource,
    if there is one, whether its deletion was asked for, for how many
    lookups a deleted resource is still reported, and the fault that every
    lookup meets, if any. *)
Record remote_state : Type := mkRemoteState {
  resource : option dict;
  deleted : bool;
  lingering : nat;
  fault : option exn
}.

(** A remote state in which no deletion was asked for. *)
Definition mkRemote (resource : option dict) (lingering : nat)
    (fault : option exn) : remote_state :=
  mkRemoteState resource false lingering fault.

(** Its client: [get] raises the fault if one is set, else answers with the
    model or with a 404; [create_or_update] stores the payload under the
    id 'r1'; after [delete] the model is still reported for [lingering]
    lookups. *)
Definition example_get (r : remote_state) : result dict * remote_state :=
  match fault r with
  | Some e => (Raise e, r)
  | None =>
      match resource r with
      | Some d =>
          if deleted r then
            match lingering r with
            | O => (Raise (CloudError 404 "Not Found"), mkRemote None O None)
            | S n => (Ok d, mkRemoteState (Some d) true n None)
            end
          else (Ok d, r)
      | None => (Raise (CloudError 404 "Not Found"), r)
      end
  end.

Definition example_create_or_update (p : value) (r : remote_state)
  : result dict * remote_state :=
  let d := match p with
           | VDict fields => ("id", VStr "r1") :: fields
           | _ => [("id", VStr "r1")]
           end in
  (Ok d, mkRemote (Some d) O None).

Definition example_delete (r : remote_state) : result unit * remote_state :=
  (Ok tt, mkRemoteState (resource r) true (lingering r) (fault r)).

Definition example_client : client remote_state :=
  mkClient remote_state example_get example_create_or_update example_delete.

Definition example_redis_client : redis_client remote_state :=
  mkRedisClient remote_state example_get example_create_or_update
    example_create_or_update example_delete.

(** A firewall rule as the service reports it, and the arguments of an
    invocation that wants another end address. *)
Definition rule1 : dict :=
  [("id", VStr "r1"); ("name", VStr "rule1");
   ("start_ip_address", VStr "10.0.0.1"); ("end_ip_address", VStr "10.0.0.5")].

Definition rule1_kwargs : dict :=
  [("resource_group", VStr "rg"); ("server_name", VStr "db");
   ("name", VStr "rule1"); ("start_ip_address", VStr "10.0.0.1");
   ("end_ip_address", VStr "10.0.0.9"); ("state", VStr "present")].

Definition start_of (r : remote_state) : world remote_state := mkWorld r [].

(** C3, as the code has it.  The lookup methods catch [CloudError] as a
    class: every [CloudError] that [get] raises, whatever its status, is
    turned into the value [False], the 'resource absent' determination,
    and only an exception that is not a [CloudError] leaves the method.
    This holds for the lookup of the template and for [get_rediscache]. *)
Theorem lookup_treats_every_CloudError_as_absent
    (R : Type) (c : client R) (rc : redis_client R)
    (rediscache_to_dict : dict -> dict) (w : world R) (e : exn) (rem : R) :
  cl_get c (remote w) = (Raise e, rem) ->
  rc_get rc (remote w) = (Raise e, rem) ->
  let w' := mkWorld rem (calls w ++ [CallGet (Raise e)]) in
  let absent_or_raised :=
    match e with
    | CloudError _ _ => Some (Returned (VBool false), w')
    | _ => Some (Uncaught e, w')
    end in
  get_instance c w = absent_or_raised /\
  get_rediscache rc rediscache_to_dict w = absent_or_raised.
Proof.
  intros Hc Hr w' r; subst w' r; split.
  - rewrite get_instance_eq, Hc; destruct e; reflexivity.
  - unfold get_rediscache, mbind, call; rewrite Hr; destruct e; reflexivity.
Qed.

Lemma lookup_treats_every_CloudError_as_absent_witness :
  let w := start_of (mkRemote (Some rule1) O (Some (CloudError 401 "Unauthorized"))) in
  get_instance example_client w
  = Some (Returned (VBool false),
          mkWorld (remote w) [CallGet (Raise (CloudError 401 "Unauthorized"))]).
Proof.
  intros w.
  exact (proj1 (lookup_treats_every_CloudError_as_absent
                  remote_state example_client example_redis_client
                  (fun d => d) w (CloudError 401 "Unauthorized") (remote w)
                  eq_refl eq_refl)).
Defined.

(** C3 as stated fails: a server-side fault during the lookup (status 500)
    is not surfaced.  The lookup returns [False], the module takes the
    resource for absent and goes on to create it. *)
Lemma server_fault_during_lookup_is_taken_for_absence :
  let r := mkRemote (Some rule1) O (Some (CloudError 500 "Internal Server Error")) in
  let t := AzureRMFirewallRules rule1_kwargs in
  get_instance example_client (start_of r)
  = Some (Returned (VBool false),
          mkWorld r [CallGet (Raise (CloudError 500 "Internal Server Error"))]) /\
  decide t Present (VBool false) = Ok Create /\
  exists results w',
    exec_module example_client t Present false 0 (start_of r)
    = Some (Returned results, w') /\
    calls w'
    = [CallGet (Raise (CloudError 500 "Internal Server Error"));
       CallCreateOrUpdate (payload t)
         (Ok (("id", VStr "r1")
              :: [("start_ip_address", VStr "10.0.0.1");
                  ("end_ip_address", VStr "10.0.0.9")]))].
Proof.
  intros r t; split; [reflexivity |]; split; [reflexivity |].
  eexists; eexists; split; reflexivity.
Qed.

(** C9, as the code has it.  The lookup returns the distinguished value
    [False] for an absent resource and the model's dict for a found one,
    and the decision tests the truth value of what the lookup returned:
    a found resource whose dict is empty is taken for a resource that does
    not exist, and every non-empty dict for one that exists. *)
Theorem decision_tests_truth_of_lookup
    (R : Type) (c : client R) (t : template) (st : state) (w : world R) :
  let not_existing :=
    match st with Absent => Ok NoAction | Present => Ok Create end in
  let existing (v : value) :=
    match st with
    | Absent => Ok Delete
    | Present =>
        bind (desired t) (fun new =>
        bind (default_compare new v "")
             (fun b => if negb b then Ok Update else Ok NoAction))
    end in
  match cl_get c (remote w) with
  | (Ok d, rem) =>
      get_instance c w
      = Some (Returned (VDict d), mkWorld rem (calls w ++ [CallGet (Ok d)])) /\
      decide t st (VDict d)
      = match d with
        | [] => not_existing
        | _ :: _ => existing (VDict d)
        end
  | (Raise (CloudError code msg), rem) =>
      get_instance c w
      = Some (Returned (VBool false),
              mkWorld rem (calls w ++ [CallGet (Raise (CloudError code msg))])) /\
      decide t st (VBool false) = not_existing
  | (Raise e, rem) =>
      get_instance c w
      = Some (Uncaught e, mkWorld rem (calls w ++ [CallGet (Raise e)]))
  end.
Proof.
  intros not_existing existing; subst not_existing existing.
  rewrite get_instance_eq.
  destruct (cl_get c (remote w)) as [[d | e] rem].
  - split; [reflexivity |].
    destruct d as [| kv d]; destruct st; reflexivity.
  - destruct e; try reflexivity.
    split; [reflexivity | destruct st; reflexivity].
Qed.

(** C9 as stated fails: when [get] answers with a model whose dict is
    empty, the resource is found, yet target 'present' decides Create
    without comparing anything and target 'absent' decides NoAction and
    deletes nothing. *)
Lemma empty_model_is_taken_for_absence :
  let r := mkRemote (Some []) O None in
  let t := AzureRMFirewallRules rule1_kwargs in
  get_instance example_client (start_of r)
  = Some (Returned (VDict []), mkWorld r [CallGet (Ok [])]) /\
  decide t Present (VDict []) = Ok Create /\
  decide t Absent (VDict []) = Ok NoAction /\
  exec_module example_client t Absent false 0 (start_of r)
  = Some (Returned [("changed", VBool false)], mkWorld r [CallGet (Ok [])]).
Proof.
  intros r t; repeat split.
Qed.

(** C2.  With target 'absent' and a lookup that reports the resource as
    not found, a module of the template (firewall rule, environment, user,
    global schedule) decides NoAction, returns [changed=False] without
    failing, and has made no call but the lookup, in check mode or not. *)
Theorem absent_target_and_resource_not_found
    (R : Type) (c : client R) (t : template) (check_mode : bool) (fuel : nat)
    (w w1 : world R) (v : value) :
  get_instance c w = Some (Returned v, w1) ->
  truthy v = false ->
  decide t Absent v = Ok NoAction /\
  exec_module c t Absent check_mode fuel w
  = Some (Returned [("changed", VBool false)], w1) /\
  exists answer,
    calls w1 = calls w ++ [CallGet answer] /\
    existsb is_mutating [CallGet answer] = false.
Proof.
  intros Hg Hv; split; [| split].
  - unfold decide; rewrite Hv; reflexivity.
  - rewrite (exec_module_after_lookup R c t Absent check_mode fuel w w1 v Hg).
    unfold decide; rewrite Hv; reflexivity.
  - destruct (get_instance_returned R c w w1 v Hg) as (answer & _ & Hc & _).
    exists answer; split; [exact Hc | reflexivity].
Qed.

(** The firewall rule module and the environment module, asked to remove
    what is not there. *)
Lemma absent_target_and_resource_not_found_witness :
  let w := start_of (mkRemote None O None) in
  let w1 := mkWorld (remote w) [CallGet (Raise (CloudError 404 "Not Found"))] in
  exec_module example_client (AzureRMFirewallRules rule1_kwargs) Absent false 0 w
  = Some (Returned [("changed", VBool false)], w1) /\
  exec_module example_client (AzureRMEnvironments [("location", VStr "westus")])
    Absent false 0 w
  = Some (Returned [("changed", VBool false)], w1).
Proof.
  intros w w1; split.
  - exact (proj1 (proj2 (absent_target_and_resource_not_found
                    remote_state example_client (AzureRMFirewallRules rule1_kwargs)
                    false 0 w w1 (VBool false) eq_refl eq_refl))).
  - exact (proj1 (proj2 (absent_target_and_resource_not_found
                    remote_state example_client
                    (AzureRMEnvironments [("location", VStr "westus")])
                    false 0 w w1 (VBool false) eq_refl eq_refl))).
Defined.

(** C4.  In check mode, when the decision is Create, Update or Delete, a
    module of the template returns [changed=True] and has made no call but
    the lookup: no [create_or_update], no [delete].  Every run of the same
    invocation outside check mode that returns also reports
    [changed=True].  Whatever the target and the decision, a run in check
    mode makes no call but the lookup. *)
Theorem check_mode_reports_change_without_mutation
    (R : Type) (c : client R) (t : template) (st : state) (fuel : nat)
    (w w1 : world R) (v : value) (to_do : Actions) :
  get_instance c w = Some (Returned v, w1) ->
  decide t st v = Ok to_do ->
  to_do <> NoAction ->
  ~ In "changed" (item_keys t) ->
  exec_module c t st true fuel w
  = Some (Returned [("changed", VBool true)], w1) /\
  (exists answer,
     calls w1 = calls w ++ [CallGet answer] /\
     existsb is_mutating [CallGet answer] = false) /\
  (forall fuel' results w',
     exec_module c t st false fuel' w = Some (Returned results, w') ->
     dict_get results "changed" = VBool true) /\
  (forall st' fuel' o w',
     exec_module c t st' true fuel' w = Some (o, w') ->
     exists answer, calls w' = calls w ++ [CallGet answer]).
Proof.
  intros Hg Hd Hn Hk; split; [| split; [| split]];
    [| | | intros st' fuel' o w'; apply check_mode_calls_only_lookup].
  - rewrite (exec_module_after_lookup R c t st true fuel w w1 v Hg), Hd.
    destruct to_do; congruence.
  - destruct (get_instance_returned R c w w1 v Hg) as (answer & _ & Hc & _).
    exists answer; split; [exact Hc | reflexivity].
  - intros fuel' results w'.
    rewrite (exec_module_after_lookup R c t st false fuel' w w1 v Hg), Hd.
    assert (Hcu :
      (response <~ create_update_instance c t ;;
       finish t st [("changed", VBool true)] response) w1
      = Some (Returned results, w') ->
      dict_get results "changed" = VBool true).
    { unfold mbind.
      destruct (create_update_instance c t w1) as [[[r | m | e] w3] |];
        try discriminate.
      intros H; apply finish_changed in H; [| exact Hk].
      destruct H as [H _]; rewrite H; reflexivity. }
    destruct to_do; try congruence; auto.
    unfold mbind.
    destruct (delete_instance c t w1) as [[[r | m | e] w3] |]; try discriminate.
    destruct (wait_deleted c fuel' w3) as [[[r' | m | e] w4] |]; try discriminate.
    intros H; apply finish_changed in H; [| exact Hk].
    destruct H as [H _]; rewrite H; reflexivity.
Qed.

Lemma check_mode_reports_change_without_mutation_witness :
  let w := start_of (mkRemote (Some rule1) O None) in
  exec_module example_client (AzureRMFirewallRules rule1_kwargs) Present true 0 w
  = Some (Returned [("changed", VBool true)],
          mkWorld (remote w) [CallGet (Ok rule1)]).
Proof.
  intros w.
  refine (proj1 (check_mode_reports_change_without_mutation
                   remote_state example_client
                   (AzureRMFirewallRules rule1_kwargs) Present 0 w
                   (mkWorld (remote w) [CallGet (Ok rule1)])
                   (VDict rule1) Update eq_refl eq_refl _ _)).
  - discriminate.
  - simpl; intuition discriminate.
Defined.

(** C5.  For a module of the template, target 'absent' and a lookup that
    finds the resource decide Delete.  Outside check
    mode every run that returns has called [delete] once and then [get]
    again and again, with a sleep of 20 after each [get] that still found
    the resource, up to a [get] whose answer counts as absent (a
    [CloudError] or an empty model); and when the remote system answers in
    that way, a run with enough fuel for the loop does return.  When
    [delete] raises a [CloudError] the module fails without polling. *)
Theorem delete_once_then_poll_until_absent
    (R : Type) (c : client R) (t : template) (fuel : nat)
    (w w1 : world R) (v : value) :
  get_instance c w = Some (Returned v, w1) ->
  truthy v = true ->
  decide t Absent v = Ok Delete /\
  (forall results w',
     exec_module c t Absent false fuel w = Some (Returned results, w') ->
     results = [("changed", VBool true)] /\
     exists polls last,
       Forall (fun d => truthy (VDict d) = true) polls /\
       absent_answer last = true /\
       calls w' = calls w1 ++ CallDelete (Ok tt) :: poll_events polls last) /\
  (forall r2 polls last r3,
     cl_delete c (remote w1) = (Ok tt, r2) ->
     answers R c r2 polls last r3 ->
     Forall (fun d => truthy (VDict d) = true) polls ->
     absent_answer last = true ->
     List.length polls < fuel ->
     exec_module c t Absent false fuel w
     = Some (Returned [("changed", VBool true)],
             mkWorld r3 (calls w1 ++ CallDelete (Ok tt) :: poll_events polls last))) /\
  (forall code msg r2,
     cl_delete c (remote w1) = (Raise (CloudError code msg), r2) ->
     exec_module c t Absent false fuel w
     = Some (FailJson ("Error deleting the " ++ label t ++ " instance: " ++ msg),
             mkWorld r2 (calls w1 ++ [CallDelete (Raise (CloudError code msg))]))).
Proof.
  intros Hg Hv.
  assert (Hd : decide t Absent v = Ok Delete)
    by (unfold decide; rewrite Hv; reflexivity).
  pose proof (exec_module_after_lookup R c t Absent false fuel w w1 v Hg) as E.
  rewrite Hd in E; cbv beta iota in E.
  split; [exact Hd |]; split; [| split].
  - intros results w'; rewrite E; unfold mbind at 1.
    rewrite delete_instance_eq.
    destruct (cl_delete c (remote w1)) as [[[] | e] r2]; cbv beta iota zeta.
    + unfold mbind at 1.
      destruct (wait_deleted c fuel _) as [[[[] | m | e] w3] |] eqn:Hw;
        try discriminate.
      cbn [finish ret]; intros H; inversion H; subst; split; [reflexivity |].
      apply wait_deleted_returned in Hw
        as (polls & last & _ & Hp & Hl & _ & Hc).
      cbn [calls] in Hc.
      exists polls, last; repeat split; auto.
      rewrite Hc, <- app_assoc; reflexivity.
    + destruct e; discriminate.
  - intros r2 polls last r3 Hdel Ha Hp Hl Hf.
    rewrite E; unfold mbind at 1.
    rewrite delete_instance_eq, Hdel; cbv beta iota zeta.
    unfold mbind at 1.
    rewrite (wait_deleted_returns R c fuel r2 _ polls last r3 Ha Hp Hl Hf).
    cbn [finish ret]; rewrite <- app_assoc; reflexivity.
  - intros code msg r2 Hdel.
    rewrite E; unfold mbind at 1.
    rewrite delete_instance_eq, Hdel; reflexivity.
Qed.

(** A firewall rule that is still reported for two lookups after its
    deletion. *)
Lemma delete_once_then_poll_until_absent_witness :
  let w := start_of (mkRemote (Some rule1) 2 None) in
  exec_module example_client (AzureRMFirewallRules rule1_kwargs) Absent false 3 w
  = Some (Returned [("changed", VBool true)],
          mkWorld (mkRemote None O None)
            [CallGet (Ok rule1); CallDelete (Ok tt);
             CallGet (Ok rule1); Sleep 20;
             CallGet (Ok rule1); Sleep 20;
             CallGet (Raise (CloudError 404 "Not Found"))]).
Proof.
  intros w.
  refine (proj1 (proj2 (proj2 (delete_once_then_poll_until_absent
                   remote_state example_client
                   (AzureRMFirewallRules rule1_kwargs) 3 w
                   (mkWorld (mkRemote (Some rule1) 2 None) [CallGet (Ok rule1)])
                   (VDict rule1) eq_refl eq_refl)))
                (mkRemoteState (Some rule1) true 2 None) [rule1; rule1]
                (Raise (CloudError 404 "Not Found")) (mkRemote None O None)
                eq_refl _ _ eq_refl _).
  - cbn [answers]; eexists; split; [reflexivity |].
    eexists; split; reflexivity.
  - repeat constructor.
  - cbn; lia.
Defined.

(** C6.  With target 'present' and a resource that exists, a module whose
    first argument of [default_compare] evaluates to a value, as that of
    the firewall rule module does, decides Update when the comparison
    returns [False]: in check mode it returns [changed=True] after the
    lookup alone; outside check mode it calls [create_or_update] once with
    the module's payload and, when that call answers with a model, returns
    [changed=True] with the item formatted from the answer.  The
    environment, user and global schedule modules pass [self.parameters],
    an attribute that nothing sets: the [AttributeError] ends them right
    after the lookup, whatever the desired fields are, with no decision
    and no call of [create_or_update]. *)
Theorem update_when_comparison_fails
    (R : Type) (c : client R) (t : template) (check_mode : bool) (fuel : nat)
    (w w1 : world R) (v : value) :
  get_instance c w = Some (Returned v, w1) ->
  truthy v = true ->
  ~ In "changed" (item_keys t) ->
  (forall new,
     desired t = Ok new ->
     default_compare new v "" = Ok false ->
     decide t Present v = Ok Update /\
     (check_mode = true ->
      exec_module c t Present check_mode fuel w
      = Some (Returned [("changed", VBool true)], w1)) /\
     (check_mode = false ->
      forall d r2,
        cl_create_or_update c (payload t) (remote w1) = (Ok d, r2) ->
        let results :=
          dict_update [("changed", VBool true)]
            (map (fun k => (k, dict_get d k)) (item_keys t)) in
        exec_module c t Present check_mode fuel w
        = Some (Returned results,
                mkWorld r2 (calls w1 ++ [CallCreateOrUpdate (payload t) (Ok d)])) /\
        dict_get results "changed" = VBool true)) /\
  (forall kwargs,
     t = AzureRMFirewallRules kwargs ->
     desired t
     = Ok (VDict [("start_ip_address", dict_get kwargs "start_ip_address");
                  ("end_ip_address", dict_get kwargs "end_ip_address")])) /\
  (forall kwargs,
     t = AzureRMEnvironments kwargs \/ t = AzureRMUsers kwargs \/
     AzureRMGlobalSchedules kwargs = Ok t ->
     decide t Present v = Raise (AttributeError "parameters") /\
     exec_module c t Present check_mode fuel w
     = Some (Uncaught (AttributeError "parameters"), w1)).
Proof.
  intros Hg Hv Hk; split; [| split].
  - intros new Hn Hc.
    assert (Hd : decide t Present v = Ok Update).
    { unfold decide; rewrite Hv, Hn; cbn [negb bind]; rewrite Hc; reflexivity. }
    split; [exact Hd |]; split; intros ->.
    + rewrite (exec_module_after_lookup R c t Present true fuel w w1 v Hg), Hd.
      reflexivity.
    + intros d r2 Hcu results.
      rewrite (exec_module_after_lookup R c t Present false fuel w w1 v Hg), Hd.
      cbv beta iota; unfold mbind at 1.
      rewrite create_update_instance_eq, Hcu; cbv beta iota zeta.
      split; [reflexivity |].
      unfold results; rewrite dict_get_update_other; [reflexivity |].
      rewrite map_map; cbn [fst]; rewrite map_id; exact Hk.
  - intros kwargs ->; reflexivity.
  - intros kwargs Ht.
    assert (Hp : desired t = self_parameters).
    { destruct Ht as [-> | [-> | Ht]]; try reflexivity.
      unfold AzureRMGlobalSchedules in Ht.
      destruct (schedule_status _ _); [| discriminate].
      cbn [bind] in Ht.
      destruct (schedule_notification_settings _ _); [| discriminate].
      inversion Ht; reflexivity. }
    assert (Hd : decide t Present v = Raise (AttributeError "parameters")).
    { unfold decide; rewrite Hv, Hp; reflexivity. }
    split; [exact Hd |].
    rewrite (exec_module_after_lookup R c t Present check_mode fuel w w1 v Hg), Hd.
    reflexivity.
Qed.

(** A firewall rule whose end address is to change is updated; an
    environment whose location is to change ends in the
    [AttributeError]. *)
Lemma update_when_comparison_fails_witness :
  let w := start_of (mkRemote (Some rule1) O None) in
  let t := AzureRMFirewallRules rule1_kwargs in
  let env1 := [("id", VStr "e1"); ("location", VStr "eastus")] in
  let w' := start_of (mkRemote (Some env1) O None) in
  exec_module example_client t Present false 0 w
  = Some (Returned [("changed", VBool true); ("id", VStr "r1")],
          mkWorld (mkRemote
                     (Some [("id", VStr "r1");
                            ("start_ip_address", VStr "10.0.0.1");
                            ("end_ip_address", VStr "10.0.0.9")]) O None)
            [CallGet (Ok rule1);
             CallCreateOrUpdate (payload t)
               (Ok [("id", VStr "r1");
                    ("start_ip_address", VStr "10.0.0.1");
                    ("end_ip_address", VStr "10.0.0.9")])]) /\
  exec_module example_client (AzureRMEnvironments [("location", VStr "westus")])
    Present false 0 w'
  = Some (Uncaught (AttributeError "parameters"),
          mkWorld (remote w') [CallGet (Ok env1)]).
Proof.
  intros w t env1 w'; split.
  - refine (proj1 (proj2 (proj2 (proj1 (update_when_comparison_fails
                     remote_state example_client t false 0 w
                     (mkWorld (remote w) [CallGet (Ok rule1)])
                     (VDict rule1) eq_refl eq_refl _) _ eq_refl eq_refl))
                  eq_refl _ _ eq_refl)).
    simpl; intuition discriminate.
  - refine (proj2 (proj2 (proj2 (update_when_comparison_fails
                     remote_state example_client
                     (AzureRMEnvironments [("location", VStr "westus")])
                     false 0 w' (mkWorld (remote w') [CallGet (Ok env1)])
                     (VDict env1) eq_refl eq_refl _))
                  [("location", VStr "westus")] (or_introl eq_refl))).
    simpl; intuition discriminate.
Defined.

(** None of the four modules formats a key 'changed'. *)
Lemma modules_do_not_format_changed (kwargs : dict) :
  ~ In "changed" (item_keys (AzureRMFirewallRules kwargs)) /\
  ~ In "changed" (item_keys (AzureRMEnvironments kwargs)) /\
  ~ In "changed" (item_keys (AzureRMUsers kwargs)) /\
  (forall t, AzureRMGlobalSchedules kwargs = Ok t ->
             ~ In "changed" (item_keys t)).
Proof.
  repeat split; try (simpl; intuition discriminate).
  intros t H; unfold AzureRMGlobalSchedules in H.
  destruct (schedule_status _ _); [| discriminate].
  cbn [bind] in H.
  destruct (schedule_notification_settings _ _); [| discriminate].
  inversion H; subst; simpl; intuition discriminate.
Qed.

End DriverClaims.

(** * Further properties of the comparator *)

Module ComparatorMore.
Import Py Comparator ComparatorFacts.

(** No list anywhere in a value. *)
Fixpoint list_free (v : value) : bool :=
  match v with
  | VList _ => false
  | VDict d =>
      (fix go (d : list (string * value)) : bool :=
         match d with
         | [] => true
         | (_, x) :: d' => list_free x && go d'
         end) d
  | _ => true
  end.

Lemma recur_None (old : value) (path : string) :
  recur VNone old path = Some (Ok true).
Proof. reflexivity. Qed.

Lemma dict_get_all_None (nd : dict) (k : string) :
  Forall (fun kv => snd kv = VNone) nd -> dict_get nd k = VNone.
Proof.
  unfold dict_get; induction 1 as [| [k' v] nd Hv _ IH]; [reflexivity |].
  cbn [lookup]; destruct (String.eqb k k'); [exact Hv | exact IH].
Qed.

(** X1.  A desired mapping all of whose values are [None] asks for nothing:
    it matches every actual value that is a mapping, and no other. *)
Theorem all_None_desired_matches_every_mapping
    (nd : dict) (old : value) (path : string) :
  Forall (fun kv => snd kv = VNone) nd ->
  default_compare (VDict nd) old path = Ok (is_dict old).
Proof.
  intros Hn.
  destruct old as [| | | | | od]; try reflexivity.
  assert (E : Some (default_compare (VDict nd) (VDict od) path) = Some (Ok true));
    [| cbn [is_dict]; congruence].
  rewrite default_compare_dict.
  generalize (keys nd); intros ks.
  induction ks as [| k ks IH]; [reflexivity |].
  cbn [for_keys]; rewrite (dict_get_all_None nd k Hn), recur_None; exact IH.
Qed.

Lemma all_None_desired_matches_every_mapping_witness :
  default_compare
    (VDict [("start_ip_address", VNone); ("end_ip_address", VNone)])
    (VDict [("id", VStr "r1"); ("start_ip_address", VStr "10.0.0.1")]) ""
  = Ok true.
Proof.
  apply (all_None_desired_matches_every_mapping
           [("start_ip_address", VNone); ("end_ip_address", VNone)]
           (VDict [("id", VStr "r1"); ("start_ip_address", VStr "10.0.0.1")])).
  repeat constructor.
Defined.

Lemma for_keys_old_agree rec nd od od' (path : string) ks :
  (forall k, In k ks -> dict_get od k = dict_get od' k) ->
  for_keys rec nd od path ks = for_keys rec nd od' path ks.
Proof.
  induction ks as [| k ks IH]; intros H; [reflexivity |].
  cbn [for_keys]; rewrite <- (H k (or_introl eq_refl)).
  destruct (rec (dict_get nd k) (dict_get od k) (path ++ "/" ++ k)%string)
    as [[[|] | e] |]; try reflexivity.
  apply IH; intros k' Hk'; apply H; right; exact Hk'.
Qed.

(** X2.  Of an actual mapping the comparison reads only the keys that the
    desired mapping has: two actual mappings that agree on those keys give
    the same result, whatever else they hold. *)
Theorem only_desired_keys_are_read (nd od od' : dict) (path : string) :
  (forall k, In k (keys nd) -> dict_get od k = dict_get od' k) ->
  default_compare (VDict nd) (VDict od) path
  = default_compare (VDict nd) (VDict od') path.
Proof.
  intros H.
  assert (E : Some (default_compare (VDict nd) (VDict od) path)
              = Some (default_compare (VDict nd) (VDict od') path));
    [| congruence].
  rewrite !default_compare_dict; apply for_keys_old_agree; exact H.
Qed.

Lemma only_desired_keys_are_read_witness :
  default_compare (VDict [("end_ip_address", VStr "10.0.0.5")])
    (VDict [("end_ip_address", VStr "10.0.0.5")]) ""
  = default_compare (VDict [("end_ip_address", VStr "10.0.0.5")])
      (VDict [("id", VStr "r1"); ("end_ip_address", VStr "10.0.0.5");
              ("type", VList [])]) "".
Proof.
  apply only_desired_keys_are_read.
  intros k [<- | []]; reflexivity.
Defined.

(** X3.  Lists of different lengths compare false and the comparison does
    not raise, also when one of them is empty: [old[0]] is read only after
    the lengths were found equal. *)
Theorem lists_of_different_lengths_are_unequal
    (nl ol : list value) (path : string) :
  List.length nl <> List.length ol ->
  default_compare (VList nl) (VList ol) path = Ok false.
Proof.
  intros H.
  assert (E : Some (default_compare (VList nl) (VList ol) path)
              = Some (Ok false)); [| congruence].
  rewrite default_compare_list.
  apply Nat.eqb_neq in H; rewrite H; reflexivity.
Qed.

Lemma lists_of_different_lengths_are_unequal_witness :
  default_compare (VList [VInt 1]) (VList []) "" = Ok false.
Proof.
  apply lists_of_different_lengths_are_unequal; discriminate.
Defined.

Lemma default_compare_fuel_path n :
  forall new old (p p' : string),
    default_compare_fuel n new old p = default_compare_fuel n new old p'.
Proof.
  induction n as [| n IH]; intros new old p p'; [reflexivity |].
  destruct new as [| b | z | s | nl | nd]; cbn [default_compare_fuel];
    try reflexivity.
  - destruct old as [| | | | ol |]; try reflexivity.
    destruct (negb (Nat.eqb (List.length nl) (List.length ol)));
      [reflexivity |].
    destruct (sort_lists nl ol) as [[nl' ol'] | e]; [| reflexivity].
    revert ol'; induction nl' as [| x xs IHxs]; intros ol'; [reflexivity |].
    cbn [for_items]; destruct ol' as [| o os]; [reflexivity |].
    rewrite (IH x o (p ++ "/*")%string (p' ++ "/*")%string).
    destruct (default_compare_fuel n x o (p' ++ "/*")%string)
      as [[[|] | e] |]; try reflexivity.
    apply IHxs.
  - destruct old as [| | | | | od]; try reflexivity.
    generalize (keys nd); intros ks.
    induction ks as [| k ks IHks]; [reflexivity |].
    cbn [for_keys].
    rewrite (IH (dict_get nd k) (dict_get od k)
               (p ++ "/" ++ k)%string (p' ++ "/" ++ k)%string).
    destruct (default_compare_fuel n (dict_get nd k) (dict_get od k)
                (p' ++ "/" ++ k)%string) as [[[|] | e] |]; try reflexivity.
    exact IHks.
Qed.

(** X4.  The [path] argument, which the recursion extends at every level,
    has no part in the result. *)
Theorem path_does_not_matter (new old : value) (path path' : string) :
  default_compare new old path = default_compare new old path'.
Proof.
  unfold default_compare.
  rewrite (default_compare_fuel_path _ new old path path'); reflexivity.
Qed.

(** X5.  Comparing with itself a value that holds no float (none, a
    boolean, an integer, a string, or a list or dict of such values) never
    returns [False]: it returns [True] or it raises. *)
Theorem self_comparison_is_never_False (v : value) (path : string) :
  default_compare v v path <> Ok false.
Proof.
  intros H.
  pose proof (default_compare_fuel_self (S (height v)) v path false) as K.
  rewrite default_compare_fuel_enough in K; [| lia].
  rewrite H in K; specialize (K eq_refl); discriminate.
Qed.

Lemma list_free_dict_get (d : dict) (k : string) :
  list_free (VDict d) = true -> list_free (dict_get d k) = true.
Proof.
  unfold dict_get; induction d as [| [k' v] d IH]; [reflexivity |].
  cbn [list_free lookup]; intros H.
  apply andb_true_iff in H as [Hv Hd].
  destruct (String.eqb k k'); [exact Hv | exact (IH Hd)].
Qed.

Lemma default_compare_fuel_list_free n :
  forall new old (path : string),
    height new < n -> list_free new = true ->
    exists b, default_compare_fuel n new old path = Some (Ok b).
Proof.
  induction n as [| n IH]; intros new old path Hn Hf; [lia |].
  destruct new as [| b | z | s | nl | nd]; cbn [default_compare_fuel];
    try discriminate; eauto.
  destruct old as [| | | | | od]; eauto.
  assert (K : forall ks,
    exists b, for_keys (default_compare_fuel n) nd od path ks = Some (Ok b)).
  { induction ks as [| k ks [b Hb]]; [eexists; reflexivity |].
    cbn [for_keys].
    destruct (IH (dict_get nd k) (dict_get od k) (path ++ "/" ++ k)%string)
      as [b' Hb'].
    - pose proof (height_dict_get nd k); lia.
    - apply list_free_dict_get; exact Hf.
    - rewrite Hb'; destruct b'; eauto. }
  apply K.
Qed.

(** X6.  A desired value that holds no list and no float (none, a boolean,
    an integer, a string, or a dict of such values) is compared without
    any exception, whatever the actual value is; compared with itself it
    gives [True]. *)
Theorem list_free_desired_never_raises (new old : value) (path : string) :
  list_free new = true ->
  (exists b, default_compare new old path = Ok b) /\
  default_compare new new path = Ok true.
Proof.
  intros Hf.
  assert (T : forall o, exists b, default_compare new o path = Ok b).
  { intros o.
    destruct (default_compare_fuel_list_free (S (height new)) new o path)
      as [b Hb]; [lia | exact Hf |].
    exists b; unfold default_compare; rewrite Hb; reflexivity. }
  split; [apply T |].
  destruct (T new) as [b Hb].
  rewrite Hb; f_equal.
  exact (default_compare_self_returns_true new path b Hb).
Qed.

Lemma list_free_desired_never_raises_witness :
  let v := VDict [("sku", VDict [("name", VStr "basic"); ("size", VStr "C1")]);
                  ("enable_non_ssl_port", VBool false); ("tags", VNone)] in
  default_compare v v "" = Ok true.
Proof.
  intros v; exact (proj2 (list_free_desired_never_raises v v "" eq_refl)).
Defined.

(** *** Lists of integers and lists of strings

    A list of integers, or of strings, is sorted without any exception,
    and two such lists that are reorderings of each other are sorted into
    the same list. *)

Section TotalOrder.

Variable P : value -> Prop.
Variable ltk : value -> value -> bool.
Hypothesis py_lt_ltk : forall a b, P a -> P b -> py_lt a b = Ok (ltk a b).
Hypothesis ltk_asym :
  forall a b, P a -> P b -> ltk a b = true -> ltk b a = false.
Hypothesis le_trans :
  forall a b c, P a -> P b -> P c ->
                ltk b a = false -> ltk c b = false -> ltk c a = false.
Hypothesis le_antisym :
  forall a b, P a -> P b -> ltk a b = false -> ltk b a = false -> a = b.
Hypothesis recur_eq :
  forall a b (path : string), P a -> P b ->
    exists e, recur a b path = Some (Ok e) /\ (e = true <-> a = b).

Definition diagonal (l : list (value * value)) : Prop :=
  Forall (fun p => P (fst p) /\ snd p = fst p) l.

Lemma sorted_diagonal_unique l1 :
  forall l2, diagonal l1 ->
             StronglySorted (key_le ltk) l1 -> StronglySorted (key_le ltk) l2 ->
             Permutation l1 l2 -> l1 = l2.
Proof.
  induction l1 as [| a l1 IH]; intros l2 D S1 S2 Hp.
  - apply Permutation_nil in Hp; congruence.
  - destruct l2 as [| b l2].
    { symmetry in Hp; apply Permutation_nil in Hp; discriminate. }
    assert (D2 : diagonal (b :: l2))
      by (eapply Permutation_Forall; eassumption).
    inversion D as [| ? ? [Pa Da] D1]; subst.
    inversion D2 as [| ? ? [Pb Db] _]; subst.
    inversion S1 as [| ? ? S1' A1]; subst.
    inversion S2 as [| ? ? S2' A2]; subst.
    assert (E : a = b).
    { assert (Ha : In a (b :: l2))
        by (eapply Permutation_in; [exact Hp | left; reflexivity]).
      assert (Hb : In b (a :: l1))
        by (eapply Permutation_in; [symmetry; exact Hp | left; reflexivity]).
      destruct Ha as [Ha | Ha]; [congruence |].
      destruct Hb as [Hb | Hb]; [congruence |].
      rewrite Forall_forall in A1, A2.
      specialize (A1 b Hb); specialize (A2 a Ha); unfold key_le in *.
      pose proof (le_antisym _ _ Pa Pb A2 A1) as Ek.
      destruct a as [a1 a2], b as [b1 b2]; cbn [fst snd] in *; congruence. }
    subst b; f_equal.
    apply IH; auto.
    eapply Permutation_cons_inv; exact Hp.
Qed.

Lemma mapM_Ok_id (l : list value) : mapM (fun x => Ok x) l = Ok l.
Proof.
  induction l as [| x l IH]; [reflexivity |].
  cbn [mapM bind]; rewrite IH; reflexivity.
Qed.

Lemma combine_diagonal {A : Type} (l : list A) :
  combine l l = map (fun x => (x, x)) l.
Proof.
  induction l as [| x l IH]; simpl; [reflexivity | f_equal; exact IH].
Qed.

Lemma sorted_total l :
  Forall P l ->
  exists r, sorted l = Ok r /\ Permutation l r /\ Forall P r /\
            StronglySorted (key_le ltk) (map (fun x => (x, x)) r).
Proof.
  intros Hl; unfold sorted, sorted_by.
  rewrite mapM_Ok_id; cbn [bind].
  rewrite combine_diagonal.
  destruct (sort_keyed_total P ltk py_lt_ltk ltk_asym le_trans
              (map (fun x : value => (x, x)) l)) as (r & Hr & Sr).
  { rewrite Forall_map; exact Hl. }
  rewrite Hr; cbn [bind].
  pose proof (sort_keyed_Permutation _ _ Hr) as Hp.
  assert (D : Forall (fun p : value * value => snd p = fst p) r).
  { eapply Permutation_Forall; [exact Hp |].
    rewrite Forall_map; apply Forall_forall; reflexivity. }
  assert (Er : map (fun x => (x, x)) (map snd r) = r).
  { rewrite map_map.
    rewrite <- (map_id r) at 2; apply map_ext_in; intros [k x] Hin.
    rewrite Forall_forall in D; specialize (D _ Hin); cbn in *; congruence. }
  exists (map snd r); split; [reflexivity |].
  assert (Pl : Permutation l (map snd r)).
  { rewrite <- (map_id l) at 1.
    replace (map (fun x => x) l) with (map snd (map (fun x : value => (x, x)) l))
      by (rewrite map_map; reflexivity).
    apply Permutation_map; exact Hp. }
  split; [exact Pl |].
  split; [eapply Permutation_Forall; eassumption |].
  rewrite Er; exact Sr.
Qed.

Lemma for_items_total (path : string) ns :
  forall os,
    Forall P ns -> Forall P os ->
    List.length ns = List.length os ->
    exists b, for_items recur path ns os = Some (Ok b) /\ (b = true <-> ns = os).
Proof.
  induction ns as [| n ns IH]; intros [| o os] Hn Ho Hl; try discriminate.
  - exists true; split; [reflexivity | tauto].
  - inversion Hn as [| ? ? Pn Hn']; subst.
    inversion Ho as [| ? ? Po Ho']; subst.
    cbn [for_items].
    destruct (recur_eq n o (path ++ "/*")%string Pn Po) as (e & He & Hiff).
    rewrite He; destruct e.
    + assert (n = o) by (apply Hiff; reflexivity); subst o.
      destruct (IH os Hn' Ho') as (b & Hb & Hiffb); [cbn in Hl; lia |].
      exists b; split; [exact Hb |].
      rewrite Hiffb; split; [congruence | intros H; inversion H; reflexivity].
    + exists false; split; [reflexivity |].
      split; [discriminate |].
      intros H; inversion H; subst.
      assert (false = true) by (apply Hiff; reflexivity); discriminate.
Qed.

Lemma lists_compare_as_multisets (new old : list value) (path : string) :
  (forall v, P v -> is_dict v = false) ->
  Forall P new -> Forall P old -> new <> [] ->
  exists b,
    default_compare (VList new) (VList old) path = Ok b /\
    (b = true <-> Permutation new old).
Proof.
  intros Hnd Hn Ho Hne.
  assert (E : exists b,
    Some (default_compare (VList new) (VList old) path) = Some (Ok b) /\
    (b = true <-> Permutation new old)).
  { rewrite default_compare_list.
    destruct (Nat.eqb (List.length new) (List.length old)) eqn:El; cbn [negb].
    - apply Nat.eqb_eq in El.
      destruct old as [| o os]; [destruct new; [congruence | discriminate] |].
      inversion Ho as [| ? ? Po _]; subst.
      unfold sort_lists; rewrite (Hnd o Po).
      destruct (sorted_total new Hn) as (ns & Hns & Pn & In_ & Sn).
      destruct (sorted_total (o :: os) Ho) as (os' & Hos & Po' & Io & So).
      rewrite Hns, Hos; cbn [bind].
      destruct (for_items_total path ns os' In_ Io) as (b & Hb & Hiff).
      { rewrite <- (Permutation_length Pn), <- (Permutation_length Po').
        exact El. }
      exists b; split; [exact Hb |].
      rewrite Hiff; split.
      + intros ->; rewrite Pn; symmetry; exact Po'.
      + intros Hp.
        assert (Em : map (fun x : value => (x, x)) ns
                     = map (fun x : value => (x, x)) os').
        { apply sorted_diagonal_unique; auto.
          - unfold diagonal; rewrite Forall_map.
            eapply Forall_impl; [| exact In_]; cbn; auto.
          - apply Permutation_map.
            rewrite <- Pn, Hp; exact Po'. }
        apply (f_equal (map fst)) in Em.
        rewrite !map_map in Em; cbn [fst] in Em.
        rewrite !map_id in Em; exact Em.
    - exists false; split; [reflexivity |].
      apply Nat.eqb_neq in El.
      split; [discriminate |].
      intros Hp; apply Permutation_length in Hp; contradiction. }
  destruct E as (b & Hb & Hiff); exists b; split; [congruence | exact Hiff].
Qed.

End TotalOrder.

(** X7.  Two lists of integers, or two lists of strings, the desired one
    not empty, are compared as multisets: the comparison never raises, and
    it returns [True] exactly when one list is a reordering of the
    other. *)
Theorem scalar_lists_compare_as_multisets
    (new old : list value) (path : string) :
  (Forall is_int new /\ Forall is_int old) \/
  (Forall is_str new /\ Forall is_str old) ->
  new <> [] ->
  exists b,
    default_compare (VList new) (VList old) path = Ok b /\
    (b = true <-> Permutation new old).
Proof.
  intros [[Hn Ho] | [Hn Ho]] Hne.
  - apply (lists_compare_as_multisets is_int int_ltb); auto.
    + intros a b [x ->] [y ->]; reflexivity.
    + intros a b [x ->] [y ->]; simpl; lia.
    + intros a b c [x ->] [y ->] [z ->]; simpl; lia.
    + intros a b [x ->] [y ->]; simpl; intros; f_equal; lia.
    + intros a b p [x ->] [y ->]; exists (Z.eqb x y); split; [reflexivity |].
      rewrite Z.eqb_eq; split; [congruence | intros H; inversion H; auto].
    + intros v [x ->]; reflexivity.
  - apply (lists_compare_as_multisets is_str str_ltb); auto.
    + intros a b [x ->] [y ->]; reflexivity.
    + intros a b [x ->] [y ->]; simpl; unfold String.ltb.
      rewrite (String.compare_antisym y x).
      destruct (String.compare x y); simpl; congruence.
    + intros a b c [x ->] [y ->] [z ->]; simpl; apply string_ltb_le_trans.
    + intros a b [x ->] [y ->]; simpl; unfold String.ltb; intros Hxy Hyx.
      rewrite (String.compare_antisym y x) in Hyx.
      destruct (String.compare x y) eqn:E; simpl in *; try discriminate.
      apply String.compare_eq_iff in E; congruence.
    + intros a b p [x ->] [y ->]; exists (String.eqb x y); split; [reflexivity |].
      rewrite String.eqb_eq; split; [congruence | intros H; inversion H; auto].
    + intros v [x ->]; reflexivity.
Qed.

Lemma scalar_lists_compare_as_multisets_witness :
  default_compare (VList [VStr "10.0.0.9"; VStr "10.0.0.1"])
    (VList [VStr "10.0.0.1"; VStr "10.0.0.9"]) "" = Ok true.
Proof.
  destruct (scalar_lists_compare_as_multisets
              [VStr "10.0.0.9"; VStr "10.0.0.1"]
              [VStr "10.0.0.1"; VStr "10.0.0.9"] "")
    as (b & Hb & Hiff).
  - right; split; repeat constructor; eexists; reflexivity.
  - discriminate.
  - rewrite Hb; f_equal; apply Hiff, perm_swap.
Defined.

(** *** Desired fields that are [None] *)

Definition is_None (v : value) : bool :=
  match v with VNone => true | _ => false end.

(** The desired mapping without its fields that are [None]. *)
Definition without_None (nd : dict) : dict :=
  filter (fun kv => negb (is_None (snd kv))) nd.

Lemma NoDup_keys_dict_get (d : dict) (k : string) (v : value) :
  NoDup (keys d) -> In (k, v) d -> dict_get d k = v.
Proof.
  unfold dict_get, keys; induction d as [| [k' v'] d IH]; [contradiction |].
  cbn [map fst lookup]; intros Hnd [H | H].
  - inversion H; subst; rewrite String.eqb_refl; reflexivity.
  - inversion Hnd as [| ? ? Hnot Hnd']; subst.
    destruct (String.eqb k k') eqn:E; [| exact (IH Hnd' H)].
    apply String.eqb_eq in E; subst k'.
    exfalso; apply Hnot; apply in_map_iff; exists (k, v); auto.
Qed.

Lemma NoDup_keys_without_None (d : dict) :
  NoDup (keys d) -> NoDup (keys (without_None d)).
Proof.
  unfold keys, without_None; induction d as [| [k v] d IH]; [auto |].
  cbn [map fst filter snd]; intros Hnd.
  inversion Hnd as [| ? ? Hnot Hnd']; subst.
  destruct (negb (is_None v)); [| exact (IH Hnd')].
  cbn [map fst]; constructor; [| exact (IH Hnd')].
  intros Hin; apply Hnot.
  apply in_map_iff in Hin as ([k' v'] & Hk & Hin); cbn in Hk; subst k'.
  apply filter_In in Hin as [Hin _].
  apply in_map_iff; exists (k, v'); auto.
Qed.

(** X8.  A desired field whose value is [None] is not compared: the result
    is that of the desired mapping without such fields. *)
Theorem None_fields_are_not_compared (nd od : dict) (path : string) :
  NoDup (keys nd) ->
  default_compare (VDict nd) (VDict od) path
  = default_compare (VDict (without_None nd)) (VDict od) path.
Proof.
  intros Hnd.
  assert (E : Some (default_compare (VDict nd) (VDict od) path)
              = Some (default_compare (VDict (without_None nd)) (VDict od) path));
    [| congruence].
  rewrite !default_compare_dict.
  assert (K : forall l,
    (forall k v, In (k, v) l -> In (k, v) nd) ->
    for_keys recur nd od path (keys l)
    = for_keys recur (without_None nd) od path (keys (without_None l))).
  { induction l as [| [k v] l IH]; intros Hsub; [reflexivity |].
    assert (Hl : forall k0 v0, In (k0, v0) l -> In (k0, v0) nd)
      by (intros k0 v0 H0; apply Hsub; right; exact H0).
    assert (Hk : dict_get nd k = v)
      by (apply NoDup_keys_dict_get; [exact Hnd | apply Hsub; left; reflexivity]).
    assert (Hw : negb (is_None v) = true -> dict_get (without_None nd) k = v).
    { intros Hv; apply NoDup_keys_dict_get;
        [exact (NoDup_keys_without_None nd Hnd) |].
      apply filter_In; split; [apply Hsub; left; reflexivity | exact Hv]. }
    specialize (IH Hl).
    unfold keys in *; unfold without_None at 2; cbn [map fst filter snd for_keys].
    fold (without_None l); rewrite Hk.
    destruct (negb (is_None v)) eqn:Ev.
    - cbn [map fst for_keys]; rewrite (Hw eq_refl).
      destruct (recur v (dict_get od k) (path ++ "/" ++ k)%string)
        as [[[|] | e] |]; try reflexivity; exact IH.
    - destruct v; try discriminate.
      rewrite recur_None; exact IH. }
  apply K; auto.
Qed.

Lemma None_fields_are_not_compared_witness :
  default_compare
    (VDict [("start_ip_address", VNone); ("end_ip_address", VStr "10.0.0.5")])
    (VDict [("id", VStr "r1"); ("start_ip_address", VStr "10.0.0.1");
            ("end_ip_address", VStr "10.0.0.5")]) ""
  = default_compare (VDict [("end_ip_address", VStr "10.0.0.5")])
      (VDict [("id", VStr "r1"); ("start_ip_address", VStr "10.0.0.1");
              ("end_ip_address", VStr "10.0.0.5")]) "".
Proof.
  apply (None_fields_are_not_compared
           [("start_ip_address", VNone); ("end_ip_address", VStr "10.0.0.5")]).
  repeat constructor; simpl; intuition discriminate.
Defined.

End ComparatorMore.

(** * Further properties of the drivers *)

Module DriverMore.
Import Py Comparator ComparatorFacts ComparatorMore Driver DriverFacts.
Import DriverClaims.

Section TemplateMore.

Variable R : Type.
Variable c : client R.
Variable t : template.

(** Whatever the loop that waits for the deletion ends in, it has only
    looked up and slept. *)
Lemma wait_deleted_calls fuel :
  forall (w w' : world R) o,
    wait_deleted c fuel w = Some (o, w') ->
    exists evs, calls w' = calls w ++ evs /\
                Forall (fun e => is_mutating e = false) evs.
Proof.
  induction fuel as [| fuel IH]; intros w w' o H; [discriminate |].
  cbn [wait_deleted] in H; unfold mbind at 1 in H.
  rewrite get_instance_eq in H.
  destruct (cl_get c (remote w)) as [answer rem]; cbv beta iota zeta in H.
  assert (K : forall v,
    (if truthy v then (_ <~ sleep 20 ;; wait_deleted c fuel) else ret tt)
      (mkWorld rem (calls w ++ [CallGet answer])) = Some (o, w') ->
    exists evs, calls w' = calls w ++ evs /\
                Forall (fun e => is_mutating e = false) evs).
  { intros v; destruct (truthy v).
    - unfold mbind, sleep; cbn [remote calls]; intros Hw.
      apply IH in Hw as (evs & Hc & He); cbn [calls] in Hc.
      exists (CallGet answer :: Sleep 20 :: evs); split.
      + rewrite Hc, <- !app_assoc; reflexivity.
      + repeat constructor; exact He.
    - cbn [ret]; intros Hw; inversion Hw; subst; cbn [calls].
      exists [CallGet answer]; split; [reflexivity | repeat constructor]. }
  destruct answer as [d | e].
  - apply (K (VDict d)); exact H.
  - destruct e;
      first [ apply (K (VBool false)); exact H
            | inversion H; subst; cbn [calls];
              eexists; split; [reflexivity | repeat constructor] ].
Qed.

(** A run that returns went through a lookup that returned. *)
Lemma exec_module_lookup st check_mode fuel (w w' : world R) o :
  exec_module c t st check_mode fuel w = Some (o, w') ->
  (exists v w1, get_instance c w = Some (Returned v, w1)) \/
  (exists e, o = Uncaught e /\ get_instance c w = Some (Uncaught e, w')).
Proof.
  unfold exec_module, mbind at 1.
  destruct (get_instance c w) as [[[v | m | e] w1] |] eqn:Hg;
    try discriminate; intros H.
  - left; eauto.
  - exfalso; rewrite get_instance_eq in Hg.
    destruct (cl_get c (remote w)) as [[d | e] rem]; [discriminate |].
    destruct e; discriminate.
  - right; inversion H; subst; eauto.
Qed.

End TemplateMore.

(** X9.  With target 'present' and a lookup that finds nothing, a module of
    the template decides Create without comparing anything; outside check
    mode it calls [create_or_update] once with its payload and, when the
    call answers with a model, returns [changed=True] and the item
    formatted from that answer. *)
Theorem create_when_nothing_is_found
    (R : Type) (c : client R) (t : template) (fuel : nat)
    (w w1 : world R) (v : value) (d : dict) (r2 : R) :
  get_instance c w = Some (Returned v, w1) ->
  truthy v = false ->
  cl_create_or_update c (payload t) (remote w1) = (Ok d, r2) ->
  decide t Present v = Ok Create /\
  exec_module c t Present false fuel w
  = Some (Returned (dict_update [("changed", VBool true)]
                      (map (fun k => (k, dict_get d k)) (item_keys t))),
          mkWorld r2 (calls w1 ++ [CallCreateOrUpdate (payload t) (Ok d)])).
Proof.
  intros Hg Hv Hc.
  assert (Hd : decide t Present v = Ok Create)
    by (unfold decide; rewrite Hv; reflexivity).
  split; [exact Hd |].
  rewrite (exec_module_after_lookup R c t Present false fuel w w1 v Hg), Hd.
  cbv beta iota; unfold mbind at 1.
  rewrite create_update_instance_eq, Hc; reflexivity.
Qed.

Lemma create_when_nothing_is_found_witness :
  let w := start_of (mkRemote None O None) in
  let t := AzureRMFirewallRules rule1_kwargs in
  exec_module example_client t Present false 0 w
  = Some (Returned [("changed", VBool true); ("id", VStr "r1")],
          mkWorld (mkRemote
                     (Some [("id", VStr "r1");
                            ("start_ip_address", VStr "10.0.0.1");
                            ("end_ip_address", VStr "10.0.0.9")]) O None)
            [CallGet (Raise (CloudError 404 "Not Found"));
             CallCreateOrUpdate (payload t)
               (Ok [("id", VStr "r1");
                    ("start_ip_address", VStr "10.0.0.1");
                    ("end_ip_address", VStr "10.0.0.9")])]).
Proof.
  intros w t.
  exact (proj2 (create_when_nothing_is_found
                  remote_state example_client t 0 w
                  (mkWorld (remote w) [CallGet (Raise (CloudError 404 "Not Found"))])
                  (VBool false) _ _ eq_refl eq_refl eq_refl)).
Defined.

(** X10.  With target 'present', a resource that is found and a comparison
    that returns [True], a module of the template decides NoAction: in
    check mode or not, it returns [changed=False] with the item formatted
    from the lookup, and makes no call but the lookup. *)
Theorem no_action_when_desired_matches
    (R : Type) (c : client R) (t : template) (check_mode : bool) (fuel : nat)
    (w w1 : world R) (d : dict) :
  get_instance c w = Some (Returned (VDict d), w1) ->
  d <> [] ->
  (new <- desired t ;; default_compare new (VDict d) "") = Ok true ->
  decide t Present (VDict d) = Ok NoAction /\
  exec_module c t Present check_mode fuel w
  = Some (Returned (dict_update [("changed", VBool false)]
                      (map (fun k => (k, dict_get d k)) (item_keys t))),
          w1).
Proof.
  intros Hg Hne Hc.
  assert (Hd : decide t Present (VDict d) = Ok NoAction).
  { unfold decide; destruct d; [congruence |].
    cbn [truthy negb].
    destruct (desired t) as [new | e]; [| discriminate].
    cbn [bind] in Hc |- *; rewrite Hc; reflexivity. }
  split; [exact Hd |].
  rewrite (exec_module_after_lookup R c t Present check_mode fuel w w1 _ Hg), Hd.
  reflexivity.
Qed.

Lemma no_action_when_desired_matches_witness :
  let w := start_of (mkRemote (Some rule1) O None) in
  let t := AzureRMFirewallRules
             [("start_ip_address", VStr "10.0.0.1");
              ("end_ip_address", VStr "10.0.0.5")] in
  exec_module example_client t Present false 0 w
  = Some (Returned [("changed", VBool false); ("id", VStr "r1")],
          mkWorld (remote w) [CallGet (Ok rule1)]).
Proof.
  intros w t.
  refine (proj2 (no_action_when_desired_matches
                   remote_state example_client t false 0 w
                   (mkWorld (remote w) [CallGet (Ok rule1)])
                   rule1 eq_refl _ eq_refl)).
  discriminate.
Defined.

(** X11.  When [create_or_update] raises, after a decision for Create or
    for Update alike, a [CloudError] ends the module with the failure
    'Error creating the <label> instance: <message>' and any other
    exception leaves the module uncaught; nothing is called after the
    failed call. *)
Theorem create_or_update_failure_is_fatal
    (R : Type) (c : client R) (t : template) (st : state) (fuel : nat)
    (w w1 : world R) (v : value) (to_do : Actions) (e : exn) (r2 : R) :
  get_instance c w = Some (Returned v, w1) ->
  decide t st v = Ok to_do ->
  to_do = Create \/ to_do = Update ->
  cl_create_or_update c (payload t) (remote w1) = (Raise e, r2) ->
  exec_module c t st false fuel w
  = Some (match e with
          | CloudError _ msg =>
              FailJson ("Error creating the " ++ label t ++ " instance: " ++ msg)
          | _ => Uncaught e
          end,
          mkWorld r2 (calls w1 ++ [CallCreateOrUpdate (payload t) (Raise e)])).
Proof.
  intros Hg Hd Ht Hc.
  rewrite (exec_module_after_lookup R c t st false fuel w w1 v Hg), Hd.
  assert (K : (response <~ create_update_instance c t ;;
               finish t st [("changed", VBool true)] response) w1
              = Some (match e with
                      | CloudError _ msg =>
                          FailJson ("Error creating the " ++ label t
                                    ++ " instance: " ++ msg)
                      | _ => Uncaught e
                      end,
                      mkWorld r2
                        (calls w1 ++ [CallCreateOrUpdate (payload t) (Raise e)]))).
  { unfold mbind; rewrite create_update_instance_eq, Hc.
    destruct e; reflexivity. }
  destruct Ht as [-> | ->]; exact K.
Qed.

Lemma create_or_update_failure_is_fatal_witness :
  let failing :=
    mkClient remote_state example_get
      (fun _ r => (Raise (CloudError 409 "Conflict"), r)) example_delete in
  let w := start_of (mkRemote (Some rule1) O None) in
  exec_module failing (AzureRMFirewallRules rule1_kwargs) Present false 0 w
  = Some (FailJson "Error creating the Firewall Rule instance: Conflict",
          mkWorld (remote w)
            [CallGet (Ok rule1);
             CallCreateOrUpdate (payload (AzureRMFirewallRules rule1_kwargs))
               (Raise (CloudError 409 "Conflict"))]).
Proof.
  intros failing w.
  exact (create_or_update_failure_is_fatal
           remote_state failing (AzureRMFirewallRules rule1_kwargs) Present 0 w
           (mkWorld (remote w) [CallGet (Ok rule1)]) (VDict rule1) Update
           (CloudError 409 "Conflict") (remote w)
           eq_refl eq_refl (or_intror eq_refl) eq_refl).
Defined.

(** X12.  The comparison of the desired with the actual state is outside
    any [try]: an exception raised while its first argument is evaluated,
    or by the comparison itself, ends the module uncaught right after the
    lookup, in check mode as well.  It is how the environment, user and
    global schedule modules end whenever the target is 'present' and the
    resource is found: with the [AttributeError] of [self.parameters]. *)
Theorem comparison_exception_is_not_caught
    (R : Type) (c : client R) (t : template) (check_mode : bool) (fuel : nat)
    (w w1 : world R) (v : value) (e : exn) :
  get_instance c w = Some (Returned v, w1) ->
  truthy v = true ->
  (new <- desired t ;; default_compare new v "") = Raise e ->
  exec_module c t Present check_mode fuel w = Some (Uncaught e, w1).
Proof.
  intros Hg Hv Hc.
  rewrite (exec_module_after_lookup R c t Present check_mode fuel w w1 v Hg).
  unfold decide; rewrite Hv; cbn [negb].
  destruct (desired t) as [new | e']; cbn [bind] in Hc |- *.
  - rewrite Hc; reflexivity.
  - inversion Hc; reflexivity.
Qed.

Lemma comparison_exception_is_not_caught_witness :
  let user1 := [("id", VStr "u1"); ("location", VStr "eastus")] in
  let w := start_of (mkRemote (Some user1) O None) in
  let t := AzureRMUsers [("location", VStr "eastus")] in
  exec_module example_client t Present true 0 w
  = Some (Uncaught (AttributeError "parameters"),
          mkWorld (remote w) [CallGet (Ok user1)]).
Proof.
  intros user1 w t.
  exact (comparison_exception_is_not_caught
           remote_state example_client t true 0 w
           (mkWorld (remote w) [CallGet (Ok user1)]) (VDict user1)
           (AttributeError "parameters") eq_refl eq_refl eq_refl).
Defined.

Lemma keys_dict_set (d : dict) (k k' : string) (v : value) :
  In k' (keys (dict_set d k v)) -> k' = k \/ In k' (keys d).
Proof.
  unfold keys; induction d as [| [k0 v0] d IH]; cbn [dict_set map fst].
  - intros [H | []]; auto.
  - destruct (String.eqb k k0); cbn [map fst]; intros [H | H].
    + right; left; exact H.
    + right; right; exact H.
    + right; left; exact H.
    + destruct (IH H) as [Hk | Hd]; [left; exact Hk | right; right; exact Hd].
Qed.

Lemma keys_dict_update (e d : dict) (k : string) :
  In k (keys (dict_update d e)) -> In k (keys d) \/ In k (keys e).
Proof.
  unfold dict_update; revert d.
  induction e as [| [k' v] e IH]; intros d H; [left; exact H |].
  cbn [fold_left fst snd] in H.
  destruct (IH _ H) as [Hd | He].
  - destruct (keys_dict_set d k' k v Hd) as [-> | Hd'];
      [right; left; reflexivity | left; exact Hd'].
  - right; right; exact He.
Qed.

Lemma finish_keys {R : Type} (t : template) (st : state)
    (results res : dict) (response : value) (w w' : world R) (k : string) :
  finish t st results response w = Some (Returned res, w') ->
  In k (keys res) -> In k (keys results) \/ In k (item_keys t).
Proof.
  unfold finish.
  destruct st; [| intros H; inversion H; auto].
  unfold mbind, lift, format_item.
  destruct response as [| | | | | d]; try discriminate.
  cbn [ret]; intros H Hk; inversion H; subst.
  destruct (keys_dict_update _ _ _ Hk) as [Hr | Hi]; [left; exact Hr |].
  right; unfold keys in Hi; rewrite map_map in Hi; cbn [fst] in Hi.
  rewrite map_id in Hi; exact Hi.
Qed.

(** X13.  The results of a module of the template hold 'changed' and
    nothing but the keys of [format_item]: no other field of the actual
    state is passed on. *)
Theorem results_hold_only_formatted_keys
    (R : Type) (c : client R) (t : template) (st : state) (check_mode : bool)
    (fuel : nat) (w w' : world R) (results : dict) (k : string) :
  exec_module c t st check_mode fuel w = Some (Returned results, w') ->
  In k (keys results) ->
  k = "changed" \/ In k (item_keys t).
Proof.
  intros H Hk.
  destruct (exec_module_lookup R c t st check_mode fuel w w' _ H)
    as [(v & w1 & Hg) | (e & He & _)]; [| discriminate].
  rewrite (exec_module_after_lookup R c t st check_mode fuel w w1 v Hg) in H.
  assert (Base : forall b res (w2 w3 : world R) response,
    finish t st [("changed", VBool b)] response w2 = Some (Returned res, w3) ->
    In k (keys res) -> k = "changed" \/ In k (item_keys t)).
  { intros b res w2 w3 response Hf Hin.
    destruct (finish_keys t st _ res response w2 w3 k Hf Hin) as [[<- | []] | Hi];
      auto. }
  assert (Flag : In k (keys [("changed", VBool true)]) ->
                 k = "changed" \/ In k (item_keys t))
    by (intros [<- | []]; auto).
  destruct (decide t st v) as [[| | |] | e]; try discriminate.
  - eapply Base; eassumption.
  - destruct check_mode; [inversion H; subst; auto |].
    unfold mbind in H.
    destruct (create_update_instance c t w1) as [[[r | m | e] w2] |];
      try discriminate.
    eapply Base; eassumption.
  - destruct check_mode; [inversion H; subst; auto |].
    unfold mbind in H.
    destruct (create_update_instance c t w1) as [[[r | m | e] w2] |];
      try discriminate.
    eapply Base; eassumption.
  - destruct check_mode; [inversion H; subst; auto |].
    unfold mbind in H.
    destruct (delete_instance c t w1) as [[[r | m | e] w2] |]; try discriminate.
    destruct (wait_deleted c fuel w2) as [[[r' | m | e] w3] |]; try discriminate.
    eapply Base; eassumption.
Qed.

Lemma results_hold_only_formatted_keys_witness :
  "id" = "changed" \/ In "id" (item_keys (AzureRMFirewallRules rule1_kwargs)).
Proof.
  apply (results_hold_only_formatted_keys
           remote_state example_client (AzureRMFirewallRules rule1_kwargs)
           Present false 0 (start_of (mkRemote (Some rule1) O None))
           (mkWorld (mkRemote
                       (Some [("id", VStr "r1");
                              ("start_ip_address", VStr "10.0.0.1");
                              ("end_ip_address", VStr "10.0.0.9")]) O None)
              [CallGet (Ok rule1);
               CallCreateOrUpdate (payload (AzureRMFirewallRules rule1_kwargs))
                 (Ok [("id", VStr "r1");
                      ("start_ip_address", VStr "10.0.0.1");
                      ("end_ip_address", VStr "10.0.0.9")])])
           [("changed", VBool true); ("id", VStr "r1")] "id").
  - reflexivity.
  - simpl; auto.
Defined.

(** X14.  Every run of a module of the template starts with the lookup and
    makes at most one call that changes the remote system: after the
    lookup it calls nothing, or [create_or_update] once with the payload,
    or [delete] once and then only looks up and sleeps. *)
Theorem at_most_one_mutating_call
    (R : Type) (c : client R) (t : template) (st : state) (check_mode : bool)
    (fuel : nat) (w w' : world R) (o : outcome dict) :
  exec_module c t st check_mode fuel w = Some (o, w') ->
  exists answer rest,
    calls w' = calls w ++ CallGet answer :: rest /\
    (rest = [] \/
     (exists a, rest = [CallCreateOrUpdate (payload t) a]) \/
     (exists a polls,
        rest = CallDelete a :: polls /\
        Forall (fun e => is_mutating e = false) polls)).
Proof.
  intros H.
  destruct (exec_module_lookup R c t st check_mode fuel w w' _ H)
    as [(v & w1 & Hg) | (e & He & Hg)].
  - rewrite (exec_module_after_lookup R c t st check_mode fuel w w1 v Hg) in H.
    destruct (get_instance_returned R c w w1 v Hg) as (answer & _ & Hc & _).
    exists answer.
    assert (Fin : forall results response,
      finish t st results response w1 = Some (o, w') ->
      exists rest, calls w' = calls w ++ CallGet answer :: rest /\
        (rest = [] \/
         (exists a, rest = [CallCreateOrUpdate (payload t) a]) \/
         (exists a polls, rest = CallDelete a :: polls /\
            Forall (fun e => is_mutating e = false) polls))).
    { intros results response Hf; apply finish_world in Hf; subst w'.
      exists []; split; [rewrite Hc; reflexivity | auto]. }
    assert (Ret : forall results : dict,
      Some (Returned results, w1) = Some (o, w') ->
      exists rest, calls w' = calls w ++ CallGet answer :: rest /\
        (rest = [] \/
         (exists a, rest = [CallCreateOrUpdate (payload t) a]) \/
         (exists a polls, rest = CallDelete a :: polls /\
            Forall (fun e => is_mutating e = false) polls))).
    { intros results Hr; inversion Hr; subst.
      exists []; split; [rewrite Hc; reflexivity | auto]. }
    assert (CU :
      (response <~ create_update_instance c t ;;
       finish t st [("changed", VBool true)] response) w1 = Some (o, w') ->
      exists rest, calls w' = calls w ++ CallGet answer :: rest /\
        (rest = [] \/
         (exists a, rest = [CallCreateOrUpdate (payload t) a]) \/
         (exists a polls, rest = CallDelete a :: polls /\
            Forall (fun e => is_mutating e = false) polls))).
    { unfold mbind; rewrite create_update_instance_eq.
      destruct (cl_create_or_update c (payload t) (remote w1)) as [a r2].
      intros Hcu.
      exists [CallCreateOrUpdate (payload t) a]; split; [| eauto].
      destruct a as [d | e]; cbv beta iota zeta in Hcu.
      - apply finish_world in Hcu; subst w'; cbn [calls].
        rewrite Hc, <- app_assoc; reflexivity.
      - destruct e; inversion Hcu; subst; cbn [calls];
          rewrite Hc, <- app_assoc; reflexivity. }
    destruct (decide t st v) as [[| | |] | e].
    + eapply Fin; exact H.
    + destruct check_mode; [eapply Ret; exact H | exact (CU H)].
    + destruct check_mode; [eapply Ret; exact H | exact (CU H)].
    + destruct check_mode; [eapply Ret; exact H |].
      unfold mbind at 1 in H; rewrite delete_instance_eq in H.
      destruct (cl_delete c (remote w1)) as [a r2].
      assert (Stop : forall o0 : outcome dict,
        Some (o0, mkWorld r2 (calls w1 ++ [CallDelete a])) = Some (o, w') ->
        exists rest, calls w' = calls w ++ CallGet answer :: rest /\
          (rest = [] \/
           (exists a, rest = [CallCreateOrUpdate (payload t) a]) \/
           (exists a polls, rest = CallDelete a :: polls /\
              Forall (fun e => is_mutating e = false) polls))).
      { intros o0 Hs; inversion Hs; subst; cbn [calls].
        exists [CallDelete a]; split;
          [rewrite Hc, <- app_assoc; reflexivity |].
        right; right; exists a, []; auto. }
      destruct a as [u | e]; cbv beta iota zeta in H.
      * unfold mbind at 1 in H.
        destruct (wait_deleted c fuel _) as [[[u' | m | e] w3] |] eqn:Hw;
          try discriminate;
          apply wait_deleted_calls in Hw as (evs & Hevs & Hnm);
          cbn [calls] in Hevs.
        -- apply finish_world in H; subst w'.
           exists (CallDelete (Ok u) :: evs); split;
             [rewrite Hevs, Hc, <- !app_assoc; reflexivity |].
           right; right; eauto.
        -- inversion H; subst.
           exists (CallDelete (Ok u) :: evs); split;
             [rewrite Hevs, Hc, <- !app_assoc; reflexivity |].
           right; right; eauto.
        -- inversion H; subst.
           exists (CallDelete (Ok u) :: evs); split;
             [rewrite Hevs, Hc, <- !app_assoc; reflexivity |].
           right; right; eauto.
      * destruct e; eapply Stop; exact H.
    + inversion H; subst.
      exists []; split; [rewrite Hc; reflexivity | auto].
  - subst o; rewrite get_instance_eq in Hg.
    destruct (cl_get c (remote w)) as [[d | e'] rem]; [discriminate |].
    destruct e'; inversion Hg; subst; cbn [calls]; eauto.
Qed.

Lemma at_most_one_mutating_call_witness :
  exists answer rest,
    [CallGet (Ok rule1); CallDelete (Ok tt);
     CallGet (Raise (CloudError 404 "Not Found"))]
    = [] ++ CallGet answer :: rest /\
    (rest = [] \/
     (exists a,
        rest = [CallCreateOrUpdate (payload (AzureRMFirewallRules rule1_kwargs)) a]) \/
     (exists a polls,
        rest = CallDelete a :: polls /\
        Forall (fun e => is_mutating e = false) polls)).
Proof.
  exact (at_most_one_mutating_call
           remote_state example_client (AzureRMFirewallRules rule1_kwargs)
           Absent false 1 (start_of (mkRemote (Some rule1) O None))
           (mkWorld (mkRemote None O None)
              [CallGet (Ok rule1); CallDelete (Ok tt);
               CallGet (Raise (CloudError 404 "Not Found"))])
           (Returned [("changed", VBool true)]) eq_refl).
Defined.

(** X15.  A firewall rule invoked without either address never updates an
    existing rule: with both arguments [None] and target 'present', a rule
    that is found gives NoAction and [changed=False]. *)
Theorem firewall_rule_without_addresses_is_left_alone
    (R : Type) (c : client R) (kwargs : dict) (check_mode : bool) (fuel : nat)
    (w w1 : world R) (d : dict) :
  dict_get kwargs "start_ip_address" = VNone ->
  dict_get kwargs "end_ip_address" = VNone ->
  get_instance c w = Some (Returned (VDict d), w1) ->
  d <> [] ->
  exec_module c (AzureRMFirewallRules kwargs) Present check_mode fuel w
  = Some (Returned [("changed", VBool false); ("id", dict_get d "id")], w1).
Proof.
  intros Hs He Hg Hne.
  rewrite (exec_module_after_lookup R c (AzureRMFirewallRules kwargs)
             Present check_mode fuel w w1 _ Hg).
  assert (Hc : default_compare
                 (VDict [("start_ip_address", dict_get kwargs "start_ip_address");
                         ("end_ip_address", dict_get kwargs "end_ip_address")])
                 (VDict d) "" = Ok true).
  { rewrite Hs, He.
    assert (E : Some (default_compare
                        (VDict [("start_ip_address", VNone);
                                ("end_ip_address", VNone)]) (VDict d) "")
                = Some (Ok true)); [| congruence].
    rewrite default_compare_dict; reflexivity. }
  unfold decide; destruct d; [congruence |].
  cbn [truthy negb desired AzureRMFirewallRules bind]; rewrite Hc; reflexivity.
Qed.

Lemma firewall_rule_without_addresses_is_left_alone_witness :
  let w := start_of (mkRemote (Some rule1) O None) in
  exec_module example_client
    (AzureRMFirewallRules [("name", VStr "rule1"); ("state", VStr "present")])
    Present false 0 w
  = Some (Returned [("changed", VBool false); ("id", VStr "r1")],
          mkWorld (remote w) [CallGet (Ok rule1)]).
Proof.
  intros w.
  refine (firewall_rule_without_addresses_is_left_alone
            remote_state example_client
            [("name", VStr "rule1"); ("state", VStr "present")] false 0 w
            (mkWorld (remote w) [CallGet (Ok rule1)]) rule1
            eq_refl eq_refl eq_refl _).
  discriminate.
Defined.

End DriverMore.

(** * The arguments of the modules *)

Module ArgumentsMore.
Import Py Comparator Driver DriverFacts ComparatorMore.

Lemma dict_get_set_same (d : dict) (k : string) (v : value) :
  dict_get (dict_set d k v) k = v.
Proof.
  unfold dict_get; induction d as [| [k0 v0] d IH]; cbn [dict_set lookup].
  - rewrite String.eqb_refl; reflexivity.
  - destruct (String.eqb k k0) eqn:E; cbn [lookup]; rewrite E; auto.
Qed.

Lemma In_dict_set (d : dict) (k k' : string) (v v' : value) :
  In (k', v') (dict_set d k v) -> v' = v \/ In (k', v') d.
Proof.
  induction d as [| [k0 v0] d IH]; cbn [dict_set].
  - intros [H | []]; inversion H; auto.
  - destruct (String.eqb k k0); intros [H | H].
    + inversion H; auto.
    + right; right; exact H.
    + right; left; exact H.
    + destruct (IH H) as [Hv | Hd]; [left; exact Hv | right; right; exact Hd].
Qed.

Lemma set_field_cases (kwargs acc : dict) (key : string) :
  (dict_get kwargs key = VNone /\ set_field kwargs acc key = acc) \/
  (dict_get kwargs key <> VNone /\
   set_field kwargs acc key = dict_set acc key (dict_get kwargs key)).
Proof.
  unfold set_field; destruct (dict_get kwargs key);
    first [left; split; reflexivity | right; split; [discriminate | reflexivity]].
Qed.

Lemma dict_get_fold_set_field (kwargs : dict) (fields : list string) :
  forall (acc : dict) (k : string),
    dict_get (fold_left (set_field kwargs) fields acc) k
    = if existsb (String.eqb k) fields && negb (is_None (dict_get kwargs k))
      then dict_get kwargs k
      else dict_get acc k.
Proof.
  induction fields as [| key fields IH]; intros acc k; [reflexivity |].
  cbn [fold_left existsb]; rewrite IH.
  destruct (existsb (String.eqb k) fields && negb (is_None (dict_get kwargs k)))
    eqn:E.
  - apply andb_true_iff in E as [E1 E2]; rewrite E1, E2, orb_true_r.
    reflexivity.
  - destruct (String.eqb k key) eqn:Ek; cbn [orb].
    + apply String.eqb_eq in Ek; subst key.
      destruct (set_field_cases kwargs acc k) as [[Hn Hs] | [Hn Hs]]; rewrite Hs.
      * rewrite Hn; reflexivity.
      * rewrite dict_get_set_same.
        destruct (dict_get kwargs k); try reflexivity; congruence.
    + rewrite E.
      destruct (set_field_cases kwargs acc key) as [[Hn Hs] | [Hn Hs]];
        rewrite Hs; [reflexivity |].
      apply dict_get_set_other; intros ->.
      rewrite String.eqb_refl in Ek; discriminate.
Qed.

Lemma fold_set_field_no_None (kwargs : dict) (fields : list string) :
  forall (acc : dict),
    (forall k v, In (k, v) acc -> v <> VNone) ->
    forall k v, In (k, v) (fold_left (set_field kwargs) fields acc) ->
                v <> VNone.
Proof.
  induction fields as [| key fields IH]; intros acc Hacc k v; [apply Hacc |].
  cbn [fold_left]; apply IH; intros k' v' Hin.
  destruct (set_field_cases kwargs acc key) as [[Hn Hs] | [Hn Hs]];
    rewrite Hs in Hin; [exact (Hacc _ _ Hin) |].
  destruct (In_dict_set _ _ _ _ _ Hin) as [-> | Hd];
    [exact Hn | exact (Hacc _ _ Hd)].
Qed.

(** X16.  The dict that the environment and user modules send holds the
    listed arguments that were given and nothing else: under a listed key
    it has the argument's value, under any other key nothing, and no
    argument that is [None] is stored. *)
Theorem payload_holds_the_given_arguments
    (kwargs : dict) (fields : list string) (k : string) :
  dict_get (collect kwargs fields) k
  = (if existsb (String.eqb k) fields then dict_get kwargs k else VNone) /\
  (forall v, In (k, v) (collect kwargs fields) -> v <> VNone).
Proof.
  unfold collect; split.
  - rewrite dict_get_fold_set_field.
    destruct (existsb (String.eqb k) fields); [| reflexivity].
    cbn [andb]; destruct (dict_get kwargs k); reflexivity.
  - intros v; apply fold_set_field_no_None; intros k' v' [].
Qed.

(** *** [_snake_to_camel] *)

Fixpoint no_underscore (s : string) : bool :=
  match s with
  | EmptyString => true
  | String ch s' => negb (Ascii.eqb ch "_") && no_underscore s'
  end.

Lemma split_underscore_word (s : string) :
  no_underscore s = true -> split_underscore s = [s].
Proof.
  induction s as [| ch s IH]; [reflexivity |].
  cbn [no_underscore split_underscore]; intros H.
  apply andb_true_iff in H as [Hc Hs].
  apply negb_true_iff in Hc; rewrite Hc, (IH Hs); reflexivity.
Qed.

Lemma append_empty (s : string) : (s ++ "")%string = s.
Proof.
  induction s as [| ch s IH]; [reflexivity |].
  cbn [String.append]; rewrite IH; reflexivity.
Qed.

(** X17.  On a word without underscores [_snake_to_camel] with
    [capitalize_first] capitalises the word, the empty word becoming '_',
    and without [capitalize_first] returns the word as it is. *)
Theorem snake_to_camel_of_a_word (s : string) :
  no_underscore s = true ->
  _snake_to_camel s true = capitalize_or_underscore s /\
  _snake_to_camel s false = s.
Proof.
  intros H; unfold _snake_to_camel.
  rewrite (split_underscore_word s H); cbn [map String.concat].
  split; [reflexivity | apply append_empty].
Qed.

Lemma snake_to_camel_of_a_word_witness :
  _snake_to_camel "enabled" true = "Enabled" /\
  _snake_to_camel "enabled" false = "enabled".
Proof.
  exact (snake_to_camel_of_a_word "enabled" eq_refl).
Defined.

Lemma split_underscore_not_empty (s : string) : split_underscore s <> [].
Proof.
  induction s as [| ch s IH]; [discriminate |].
  cbn [split_underscore].
  destruct (Ascii.eqb ch "_"); [discriminate |].
  destruct (split_underscore s); [congruence | discriminate].
Qed.

Lemma capitalize_or_underscore_not_empty (x : string) :
  capitalize_or_underscore x <> "".
Proof.
  destruct x; discriminate.
Qed.

(** X18.  With [capitalize_first] the result of [_snake_to_camel] is never
    the empty string: every part between underscores, the empty ones
    through [or '_'], gives at least one character. *)
Theorem snake_to_camel_is_never_empty (s : string) :
  _snake_to_camel s true <> "".
Proof.
  unfold _snake_to_camel.
  destruct (split_underscore s) as [| x xs] eqn:E;
    [destruct (split_underscore_not_empty s E) |].
  cbn [map String.concat].
  pose proof (capitalize_or_underscore_not_empty x) as Hx.
  destruct (capitalize_or_underscore x) as [| ch y]; [congruence |].
  destruct (map capitalize_or_underscore xs); discriminate.
Qed.

(** The spelling that the global schedule gives to a status. *)
Definition status_spelling (v : value) : value :=
  if py_eq v (VStr "disabled") then VStr "Disabled"
  else if py_eq v (VStr "enabled") then VStr "Enabled"
  else v.

Lemma py_eq_None_str (s : string) : py_eq VNone (VStr s) = false.
Proof. reflexivity. Qed.

(** X19.  The notification settings of a global schedule, when they are a
    dict, reach the payload with every field as it was given, except that
    a status 'enabled' or 'disabled' is written 'Enabled' or 'Disabled'. *)
Theorem notification_settings_keep_their_fields
    (kwargs acc ev : dict) (k : string) :
  dict_get kwargs "notification_settings" = VDict ev ->
  exists ev',
    schedule_notification_settings kwargs acc
    = Ok (dict_set acc "notification_settings" (VDict ev')) /\
    dict_get ev' k
    = if String.eqb k "status" then status_spelling (dict_get ev "status")
      else dict_get ev k.
Proof.
  intros H; unfold schedule_notification_settings; rewrite H.
  eexists; split; [reflexivity |].
  unfold status_spelling, has_key, dict_get.
  destruct (String.eqb k "status") eqn:Ek.
  - apply String.eqb_eq in Ek; subst k.
    destruct (lookup "status" ev) as [v |] eqn:El.
    + destruct (py_eq v (VStr "disabled"));
        [exact (dict_get_set_same ev "status" _) |].
      destruct (py_eq v (VStr "enabled"));
        [exact (dict_get_set_same ev "status" _) |].
      rewrite El; reflexivity.
    + rewrite El; reflexivity.
  - assert (Hne : k <> "status")
      by (intros ->; rewrite String.eqb_refl in Ek; discriminate).
    destruct (lookup "status" ev) as [v |]; [| reflexivity].
    destruct (py_eq v (VStr "disabled"));
      [exact (dict_get_set_other ev k "status" _ Hne) |].
    destruct (py_eq v (VStr "enabled"));
      [exact (dict_get_set_other ev k "status" _ Hne) | reflexivity].
Qed.

Lemma notification_settings_keep_their_fields_witness :
  exists ev',
    schedule_notification_settings
      [("notification_settings",
        VDict [("status", VStr "enabled"); ("time_in_minutes", VInt 15)])] []
    = Ok (dict_set [] "notification_settings" (VDict ev')) /\
    dict_get ev' "time_in_minutes" = VInt 15.
Proof.
  exact (notification_settings_keep_their_fields
           [("notification_settings",
             VDict [("status", VStr "enabled"); ("time_in_minutes", VInt 15)])]
           [] [("status", VStr "enabled"); ("time_in_minutes", VInt 15)]
           "time_in_minutes" eq_refl).
Defined.

End ArgumentsMore.
